(** * The medication-box API server (server.js), embedded and verified

    The server is an Express application with six routes that talk to a
    MariaDB store through a connection pool.  Every route handler has the
    same shape:

      let conn;
      try { ... conn = await pool.getConnection(); ... res.json(...) }
      catch (error) { ... res.status(500).json(...) }
      finally { if (conn) conn.release(); }

    The embedding below keeps that shape.  A handler is a computation in a
    small state-and-exception monad whose state holds the handler's local
    variable [conn], the responses sent on [res], and the outside world: the
    three tables, the store clock, the pool, and the behaviour of the store
    (which operation fails, how much time passes), given as an arbitrary
    function so that every theorem quantifies over all store behaviours.

    Requests are run one at a time, each to completion; the interleaving of
    several requests at their [await] points is outside this model. *)

From Stdlib Require Import List ZArith NArith Bool String Lia.
From Stdlib Require Import Permutation Sorting.Sorted.
From Stdlib Require Import Floats.SpecFloat.
Import ListNotations.

Local Open Scope string_scope.
Local Open Scope Z_scope.
Local Open Scope list_scope.

(** ** JavaScript values

    [req.body] is what [express.json()] parsed, an object or an array, and
    [undefined] when the request carried no JSON body; a property that is
    missing reads as [undefined].  Numbers are IEEE-754 doubles. *)

#[local] Unset Elimination Schemes.
Inductive jsval : Type :=
| JUndefined
| JNull
| JBool (b : bool)
| JNum (x : spec_float)
| JStr (s : string)
| JArr (items : list jsval)
| JObj (props : list (string * jsval)).
#[local] Set Elimination Schemes.

(** The numbers [0] and [1] the server itself writes ([isOpen ? 1 : 0]). *)
Definition js_zero : jsval := JNum (S754_zero false).
Definition js_one : jsval := JNum (S754_finite false 4503599627370496 (-52)).

(** ToBoolean: what [v ? a : b], [v && w] and [if (v)] test. *)
Definition truthy (v : jsval) : bool :=
  match v with
  | JUndefined => false
  | JNull => false
  | JBool b => b
  | JNum (S754_zero _) => false
  | JNum S754_nan => false
  | JNum _ => true
  | JStr s => negb (String.eqb s "")
  | JArr _ => true
  | JObj _ => true
  end.

(** [Array.isArray(v)]. *)
Definition isArray (v : jsval) : bool :=
  match v with
  | JArr _ => true
  | _ => false
  end.

(** [a && b] on values: [a] when it is falsy, else [b]. *)
Definition js_and (a b : jsval) : jsval := if truthy a then b else a.

Inductive error : Type := Error (message : string).

Definition message (e : error) : string := match e with Error m => m end.

Inductive outcome (A : Type) : Type :=
| Normal (a : A)
| Thrown (e : error).
Arguments Normal {A} a.
Arguments Thrown {A} e.

(** An object lists each of its keys once (JSON.parse keeps the last of
    duplicate keys). *)
Fixpoint lookup (k : string) (props : list (string * jsval)) : jsval :=
  match props with
  | [] => JUndefined
  | (k', v) :: rest => if String.eqb k k' then v else lookup k rest
  end.

(** [v.k], for the keys the server reads (none of them is a property of a
    built-in prototype): reading a property of [undefined] or [null] throws
    a TypeError, of a primitive or an array gives [undefined].  The message
    is the one of Node's engine; it names the property. *)
Definition get (v : jsval) (k : string) : outcome jsval :=
  match v with
  | JUndefined =>
      Thrown (Error ("Cannot read properties of undefined (reading '" ++ k ++ "')")%string)
  | JNull =>
      Thrown (Error ("Cannot read properties of null (reading '" ++ k ++ "')")%string)
  | JObj props => Normal (lookup k props)
  | _ => Normal JUndefined
  end.

(** Property [k] of the pattern in [const { first, ... } = v], where
    [source] is the text of the right-hand side: [undefined] and [null]
    cannot be destructured, and the TypeError of Node's engine names the
    first property of the pattern and the right-hand side; of any other
    value the properties are read one by one. *)
Definition destructure (first source : string) (v : jsval) (k : string) : outcome jsval :=
  match v with
  | JUndefined =>
      Thrown (Error ("Cannot destructure property '" ++ first ++ "' of '" ++ source
                     ++ "' as it is undefined.")%string)
  | JNull =>
      Thrown (Error ("Cannot destructure property '" ++ first ++ "' of '" ++ source
                     ++ "' as it is null.")%string)
  | _ => get v k
  end.

(** The elements a [for (const x of v)] loop visits, for an array [v]. *)
Definition elements (v : jsval) : list jsval :=
  match v with
  | JArr items => items
  | _ => []
  end.

(** ** The store

    The relational engine is not part of the repository; the server reaches
    it through the pooled connections of the mariadb connector.  What a
    statement does is modelled from its SQL text.  Whether the engine accepts
    an operation (a full pool, a lost connection, a violated constraint, a
    value the column cannot hold) is not for the server to decide: it is
    read from the behaviour of the store, see [fate] below. *)

(** Modelled from the spec: the declaration of table sensor_logs is not in
    the repository.  EnvironmentalReading is {boxId, temperature, humidity,
    timestamp}; the three first columns hold the value the server passed,
    the timestamp is the store clock in seconds (NOW() has second
    granularity). *)
Record sensor_row : Type := {
  sl_box_id : jsval;
  sl_temperature : jsval;
  sl_humidity : jsval;
  sl_timestamp : Z
}.

(** Modelled from the spec: the declaration of table compartment_status is
    not in the repository.  CompartmentStatus is {boxId, compartmentId,
    isOpen, timestamp}. *)
Record compartment_row : Type := {
  cs_box_id : jsval;
  cs_compartment_id : jsval;
  cs_is_open : jsval;
  cs_timestamp : Z
}.

(** Modelled from the spec: the declaration of table medication_schedule is
    not in the repository.  MedicationSchedule is {id, boxId, scheduledTime,
    isTaken, takenTime (nullable)}; [is_taken] is the 0/1 flag that the
    statements write ([is_taken = 1]) and compare ([is_taken = 0]).  The
    rows are created by a collaborator outside the repository. *)
Record schedule_row : Type := {
  ms_id : jsval;
  ms_box_id : jsval;
  ms_scheduled_time : Z;
  ms_is_taken : Z;
  ms_taken_time : option Z
}.

(** The tables, each in the order its rows were inserted. *)
Record database : Type := {
  sensor_logs : list sensor_row;
  compartment_status : list compartment_row;
  medication_schedule : list schedule_row
}.

Inductive row : Type :=
| SensorLog (r : sensor_row)
| CompartmentStatus (r : compartment_row)
| MedicationSchedule (r : schedule_row).

(** What [conn.query] resolves to: the rows of a SELECT, or the OK packet of
    an INSERT or UPDATE. *)
Inductive query_result : Type :=
| Rows (rs : list row)
| OkPacket (affectedRows : nat).

(** The eight SQL texts of server.js. *)
Inductive statement : Type :=
| INSERT_sensor_logs          (* INSERT INTO sensor_logs (box_id, temperature, humidity, timestamp) VALUES (?, ?, ?, NOW()) *)
| INSERT_compartment_status   (* INSERT INTO compartment_status (box_id, compartment_id, is_open, timestamp) VALUES (?, ?, ?, NOW()) *)
| SELECT_latest_sensor        (* SELECT * FROM sensor_logs WHERE box_id = ? ORDER BY timestamp DESC LIMIT 1 *)
| SELECT_latest_compartments  (* SELECT * FROM compartment_status WHERE box_id = ? ORDER BY timestamp DESC LIMIT 4 *)
| SELECT_history              (* ... WHERE box_id = ? AND timestamp > DATE_SUB(NOW(), INTERVAL 24 HOUR) ORDER BY timestamp DESC *)
| SELECT_schedule             (* ... WHERE box_id = ? AND is_taken = 0 ORDER BY scheduled_time ASC *)
| UPDATE_schedule_taken       (* UPDATE medication_schedule SET is_taken = 1, taken_time = NOW() WHERE id = ? *)
| SELECT_medication_history.  (* ... WHERE box_id = ? ORDER BY scheduled_time DESC *)

(** SQL [column = ?].  A parameter that is [undefined] or [null] is sent as
    NULL, and NULL is equal to nothing.  Values of the same scalar kind are
    compared by value; the engine's conversions between kinds are not
    modelled. *)
Definition sql_eq (column param : jsval) : bool :=
  match column, param with
  | JStr a, JStr b => String.eqb a b
  | JNum a, JNum b => SFeqb a b
  | JBool a, JBool b => Bool.eqb a b
  | _, _ => false
  end.

(** ORDER BY: a stable insertion sort.  [before x y] says that [x] may come
    before [y]; rows with equal keys keep their table order (the engine
    leaves that order open, and nothing proved below depends on it). *)
Fixpoint insert_by {A : Type} (before : A -> A -> bool) (x : A) (l : list A) : list A :=
  match l with
  | [] => [x]
  | y :: rest => if before x y then x :: y :: rest else y :: insert_by before x rest
  end.

Definition sort_by {A : Type} (before : A -> A -> bool) (l : list A) : list A :=
  fold_right (insert_by before) [] l.

Definition desc {A : Type} (key : A -> Z) (x y : A) : bool := key y <=? key x.
Definition asc {A : Type} (key : A -> Z) (x y : A) : bool := key x <=? key y.

Definition order_by_desc {A : Type} (key : A -> Z) : list A -> list A := sort_by (desc key).
Definition order_by_asc {A : Type} (key : A -> Z) : list A -> list A := sort_by (asc key).

(** LIMIT n. *)
Definition limit {A : Type} (n : nat) (l : list A) : list A := firstn n l.

(** INTERVAL 24 HOUR, in seconds. *)
Definition day : Z := 86400.

Definition mark_taken (t : Z) (r : schedule_row) : schedule_row :=
  {| ms_id := ms_id r;
     ms_box_id := ms_box_id r;
     ms_scheduled_time := ms_scheduled_time r;
     ms_is_taken := 1;
     ms_taken_time := Some t |}.

Definition with_sensor_logs (d : database) (l : list sensor_row) : database :=
  {| sensor_logs := l;
     compartment_status := compartment_status d;
     medication_schedule := medication_schedule d |}.

Definition with_compartment_status (d : database) (l : list compartment_row) : database :=
  {| sensor_logs := sensor_logs d;
     compartment_status := l;
     medication_schedule := medication_schedule d |}.

Definition with_medication_schedule (d : database) (l : list schedule_row) : database :=
  {| sensor_logs := sensor_logs d;
     compartment_status := compartment_status d;
     medication_schedule := l |}.

Definition parameter_not_set : error := Error "Parameter at position is not set".

(** One statement run by the engine at store time [t] (what NOW() returns)
    with the given parameters. *)
Definition execute (stmt : statement) (args : list jsval) (t : Z) (d : database)
  : outcome (query_result * database) :=
  match stmt, args with
  | INSERT_sensor_logs, [boxId; temperature; humidity] =>
      let r := {| sl_box_id := boxId; sl_temperature := temperature;
                  sl_humidity := humidity; sl_timestamp := t |} in
      Normal (OkPacket 1, with_sensor_logs d (sensor_logs d ++ [r]))
  | INSERT_compartment_status, [boxId; compartmentId; isOpen] =>
      let r := {| cs_box_id := boxId; cs_compartment_id := compartmentId;
                  cs_is_open := isOpen; cs_timestamp := t |} in
      Normal (OkPacket 1, with_compartment_status d (compartment_status d ++ [r]))
  | SELECT_latest_sensor, [boxId] =>
      let hits := filter (fun r => sql_eq (sl_box_id r) boxId) (sensor_logs d) in
      Normal (Rows (map SensorLog (limit 1 (order_by_desc sl_timestamp hits))), d)
  | SELECT_latest_compartments, [boxId] =>
      let hits := filter (fun r => sql_eq (cs_box_id r) boxId) (compartment_status d) in
      Normal (Rows (map CompartmentStatus (limit 4 (order_by_desc cs_timestamp hits))), d)
  | SELECT_history, [boxId] =>
      let hits := filter (fun r => sql_eq (sl_box_id r) boxId && (t - day <? sl_timestamp r))
                         (sensor_logs d) in
      Normal (Rows (map SensorLog (order_by_desc sl_timestamp hits)), d)
  | SELECT_schedule, [boxId] =>
      let hits := filter (fun r => sql_eq (ms_box_id r) boxId && (ms_is_taken r =? 0))
                         (medication_schedule d) in
      Normal (Rows (map MedicationSchedule (order_by_asc ms_scheduled_time hits)), d)
  | UPDATE_schedule_taken, [scheduleId] =>
      let hit := fun r => sql_eq (ms_id r) scheduleId in
      Normal (OkPacket (List.length (filter hit (medication_schedule d))),
              with_medication_schedule d
                (map (fun r => if hit r then mark_taken t r else r) (medication_schedule d)))
  | SELECT_medication_history, [boxId] =>
      let hits := filter (fun r => sql_eq (ms_box_id r) boxId) (medication_schedule d) in
      Normal (Rows (map MedicationSchedule (order_by_desc ms_scheduled_time hits)), d)
  | _, _ => Thrown parameter_not_set
  end.

(** ** The world outside the handler *)

Definition connection : Type := nat.

(** What the store does at one operation (an acquisition or a query):
    whether it fails, and with which message, and how many seconds have
    passed since the previous operation.  The clock never runs backwards. *)
Record store_event : Type := {
  fails : option string;
  elapsed : N
}.

(** What happened on the pool and its connections; the journal of the world
    lists these events oldest first. *)
Inductive io : Type :=
| Acquired (c : connection)
| AcquireFailed
| Queried (c : connection) (stmt : statement) (args : list jsval) (ok : bool)
| Released (c : connection).

(** The world a handler runs in: the tables, the store clock, the idle and
    the borrowed connections of the pool, what the store will do at its
    operations number 0, 1, 2, ... ([fate]), how many operations have run
    ([tick]), and the journal. *)
Record world : Type := {
  db : database;
  clock : Z;
  idle : list connection;
  active : list connection;
  fate : nat -> store_event;
  tick : nat;
  journal : list io
}.

(** connectionLimit: 5 *)
Definition connectionLimit : nat := 5.

(** The world when the server starts on tables [d] at store time [t]: the
    connections of the pool are idle, nothing has happened yet. *)
Definition boot (d : database) (t : Z) (behaviour : nat -> store_event) : world :=
  {| db := d;
     clock := t;
     idle := seq 0 connectionLimit;
     active := [];
     fate := behaviour;
     tick := 0;
     journal := [] |}.

(** The operation about to run: time passes, the operation is counted. *)
Definition next_event (w : world) : store_event := fate w (tick w).

Definition advance (w : world) : world :=
  {| db := db w;
     clock := clock w + Z.of_N (elapsed (next_event w));
     idle := idle w;
     active := active w;
     fate := fate w;
     tick := S (tick w);
     journal := journal w |}.

Definition record (e : io) (w : world) : world :=
  {| db := db w; clock := clock w; idle := idle w; active := active w;
     fate := fate w; tick := tick w; journal := journal w ++ [e] |}.

Definition with_db (w : world) (d : database) : world :=
  {| db := d; clock := clock w; idle := idle w; active := active w;
     fate := fate w; tick := tick w; journal := journal w |}.

Definition with_pool (w : world) (i a : list connection) : world :=
  {| db := db w; clock := clock w; idle := i; active := a;
     fate := fate w; tick := tick w; journal := journal w |}.

Fixpoint remove_first (c : connection) (l : list connection) : list connection :=
  match l with
  | [] => []
  | x :: rest => if Nat.eqb c x then rest else x :: remove_first c rest
  end.

(** ** Responses *)

Inductive body : Type :=
| Ack (msg : string)                                  (* { success: true, message } *)
| Latest (sensor : option row) (compartments : list row) (* { success: true, sensor, compartments } *)
| Data (data : query_result)                           (* { success: true, data } *)
| Failure (msg : string).                              (* { success: false, error } *)

Record response : Type := {
  status : Z;
  json : body
}.

Definition success (r : response) : bool :=
  match json r with
  | Failure _ => false
  | _ => true
  end.

Record request : Type := {
  req_body : jsval;       (* req.body *)
  req_boxId : string      (* req.params.boxId *)
}.

(** ** The handler monad *)

Record frame : Type := {
  wld : world;
  conn : option connection;   (* let conn; *)
  sent : list response        (* what res has sent *)
}.

Definition M (A : Type) : Type := frame -> outcome A * frame.

Definition ret {A : Type} (a : A) : M A := fun s => (Normal a, s).

Definition bind {A B : Type} (m : M A) (k : A -> M B) : M B :=
  fun s =>
    match m s with
    | (Normal a, s1) => k a s1
    | (Thrown e, s1) => (Thrown e, s1)
    end.

Notation "x <- c1 ;; c2" := (bind c1 (fun x => c2))
  (at level 61, c1 at next level, right associativity).
Notation "c1 ;; c2" := (bind c1 (fun _ => c2))
  (at level 61, right associativity).

(** A pure step that may throw. *)
Definition lift {A : Type} (o : outcome A) : M A := fun s => (o, s).

(** try { body } catch (error) { handler } finally { cleanup } *)
Definition try_catch_finally (body : M unit) (handler : error -> M unit) (cleanup : M unit) : M unit :=
  fun s =>
    let (o1, s1) := body s in
    let (o2, s2) := match o1 with
                    | Normal a => (Normal a, s1)
                    | Thrown e => handler e s1
                    end in
    let (o3, s3) := cleanup s2 in
    (match o3 with
     | Normal _ => o2
     | Thrown e => Thrown e
     end, s3).

(** for (const x of xs) { body } *)
Fixpoint for_of {A : Type} (xs : list A) (body : A -> M unit) : M unit :=
  match xs with
  | [] => ret tt
  | x :: rest => body x ;; for_of rest body
  end.

Definition set_world (s : frame) (w : world) : frame :=
  {| wld := w; conn := conn s; sent := sent s |}.

(** conn = c *)
Definition assign_conn (c : connection) : M unit :=
  fun s => (Normal tt, {| wld := wld s; conn := Some c; sent := sent s |}).

Definition read_conn : M (option connection) := fun s => (Normal (conn s), s).

(** console.log / console.error: the output is not part of the model. *)
Definition console_log (label : string) (v : jsval) : M unit := ret tt.
Definition console_error (label : string) (e : error) : M unit := ret tt.

Definition pool_timeout : error := Error "retrieve connection from pool timeout".

(** await pool.getConnection(): fails when the store says so or when no
    connection is idle (nobody else runs who could give one back). *)
Definition pool_getConnection : M connection :=
  fun s =>
    let ev := next_event (wld s) in
    let w := advance (wld s) in
    match fails ev with
    | Some msg => (Thrown (Error msg), set_world s (record AcquireFailed w))
    | None =>
        match idle w with
        | [] => (Thrown pool_timeout, set_world s (record AcquireFailed w))
        | c :: rest =>
            (Normal c, set_world s (record (Acquired c) (with_pool w rest (c :: active w))))
        end
    end.

(** await conn.query(sql, args) *)
Definition conn_query (c : connection) (stmt : statement) (args : list jsval) : M query_result :=
  fun s =>
    let ev := next_event (wld s) in
    let w := advance (wld s) in
    match fails ev with
    | Some msg => (Thrown (Error msg), set_world s (record (Queried c stmt args false) w))
    | None =>
        match execute stmt args (clock w) (db w) with
        | Thrown e => (Thrown e, set_world s (record (Queried c stmt args false) w))
        | Normal (r, d) => (Normal r, set_world s (record (Queried c stmt args true) (with_db w d)))
        end
    end.

(** conn.release() *)
Definition conn_release (c : connection) : M unit :=
  fun s =>
    let w := wld s in
    (Normal tt,
     set_world s (record (Released c) (with_pool w (idle w ++ [c]) (remove_first c (active w))))).

(** res.status(code).json(body); res.json(body) is the same with code 200. *)
Definition res_status_json (code : Z) (b : body) : M unit :=
  fun s => (Normal tt, {| wld := wld s; conn := conn s;
                          sent := sent s ++ [{| status := code; json := b |}] |}).

Definition res_json (b : body) : M unit := res_status_json 200 b.

(** result[0] || null *)
Definition first_or_null (q : query_result) : option row :=
  match q with
  | Rows (r :: _) => Some r
  | _ => None
  end.

(** result || [] *)
Definition rows_or_empty (q : query_result) : list row :=
  match q with
  | Rows rs => rs
  | OkPacket _ => []
  end.

(** The catch and finally blocks every handler shares. *)
Definition report (label : string) (e : error) : M unit :=
  console_error label e ;;
  res_status_json 500 (Failure (message e)).

Definition release_if_acquired : M unit :=
  c <- read_conn ;;
  match c with
  | Some c => conn_release c
  | None => ret tt
  end.

(** ** The route handlers *)

(** app.post('/api/sensor-data', ...) *)
Definition post_sensor_data (req : request) : M unit :=
  try_catch_finally
    (boxId <- lift (destructure "boxId" "req.body" (req_body req) "boxId") ;;
     temperature <- lift (destructure "boxId" "req.body" (req_body req) "temperature") ;;
     humidity <- lift (destructure "boxId" "req.body" (req_body req) "humidity") ;;
     compartmentStatus <-
       lift (destructure "boxId" "req.body" (req_body req) "compartmentStatus") ;;
     console_log "Received sensor data:" (req_body req) ;;
     c <- pool_getConnection ;;
     assign_conn c ;;
     conn_query c INSERT_sensor_logs [boxId; temperature; humidity] ;;
     (if truthy (js_and compartmentStatus (JBool (isArray compartmentStatus)))
      then
        for_of (elements compartmentStatus) (fun compartment =>
          id <- lift (get compartment "id") ;;
          isOpen <- lift (get compartment "isOpen") ;;
          conn_query c INSERT_compartment_status
            [boxId; id; if truthy isOpen then js_one else js_zero] ;;
          ret tt)
      else ret tt) ;;
     res_json (Ack "Data received successfully"))
    (report "Error saving sensor data:")
    release_if_acquired.

(** app.get('/api/sensor-data/latest/:boxId', ...) *)
Definition get_latest (req : request) : M unit :=
  try_catch_finally
    (let boxId := JStr (req_boxId req) in
     c <- pool_getConnection ;;
     assign_conn c ;;
     sensorData <- conn_query c SELECT_latest_sensor [boxId] ;;
     compartmentData <- conn_query c SELECT_latest_compartments [boxId] ;;
     res_json (Latest (first_or_null sensorData) (rows_or_empty compartmentData)))
    (report "Error fetching sensor data:")
    release_if_acquired.

(** app.get('/api/sensor-data/history/:boxId', ...) *)
Definition get_history (req : request) : M unit :=
  try_catch_finally
    (let boxId := JStr (req_boxId req) in
     c <- pool_getConnection ;;
     assign_conn c ;;
     history <- conn_query c SELECT_history [boxId] ;;
     res_json (Data history))
    (report "Error fetching history:")
    release_if_acquired.

(** app.get('/api/medication-schedule/:boxId', ...) *)
Definition get_schedule (req : request) : M unit :=
  try_catch_finally
    (let boxId := JStr (req_boxId req) in
     c <- pool_getConnection ;;
     assign_conn c ;;
     schedules <- conn_query c SELECT_schedule [boxId] ;;
     res_json (Data schedules))
    (report "Error fetching schedule:")
    release_if_acquired.

(** app.post('/api/medication-schedule/complete', ...) *)
Definition post_complete (req : request) : M unit :=
  try_catch_finally
    (scheduleId <- lift (destructure "scheduleId" "req.body" (req_body req) "scheduleId") ;;
     c <- pool_getConnection ;;
     assign_conn c ;;
     conn_query c UPDATE_schedule_taken [scheduleId] ;;
     res_json (Ack "Medication marked as taken"))
    (report "Error updating schedule:")
    release_if_acquired.

(** app.get('/api/medication-history/:boxId', ...) *)
Definition get_medication_history (req : request) : M unit :=
  try_catch_finally
    (let boxId := JStr (req_boxId req) in
     c <- pool_getConnection ;;
     assign_conn c ;;
     history <- conn_query c SELECT_medication_history [boxId] ;;
     res_json (Data history))
    (report "Error fetching history:")
    release_if_acquired.

(** The routes that use the store ('/' and '/health' never touch the pool). *)
Inductive route : Type :=
| POST_sensor_data
| GET_latest
| GET_history
| GET_schedule
| POST_complete
| GET_medication_history.

Definition handler (rt : route) : request -> M unit :=
  match rt with
  | POST_sensor_data => post_sensor_data
  | GET_latest => get_latest
  | GET_history => get_history
  | GET_schedule => get_schedule
  | POST_complete => post_complete
  | GET_medication_history => get_medication_history
  end.

(** One request served: the handler starts with [conn] undefined and nothing
    sent, and runs to completion. *)
Definition serve (rt : route) (req : request) (w : world) : list response * world :=
  let (_, s) := handler rt req {| wld := w; conn := None; sent := [] |} in
  (sent s, wld s).

Definition responses (rt : route) (req : request) (w : world) : list response :=
  fst (serve rt req w).

Definition after (rt : route) (req : request) (w : world) : world :=
  snd (serve rt req w).

(** * The vocabulary of the theorems

    Everything below this line describes runs of the handlers above; none
    of it is part of the server. *)

(** ** The order of rows *)

Definition newest_first {A : Type} (key : A -> Z) : list A -> Prop :=
  StronglySorted (fun x y => key y <= key x).

Definition oldest_first {A : Type} (key : A -> Z) : list A -> Prop :=
  StronglySorted (fun x y => key x <= key y).

(** [out] is the [n] most recent rows of [pool], most recent first: it is
    sorted, it has [n] rows or all of them, and the rows of [pool] it leaves
    out are no more recent than any row it holds. *)
Definition most_recent {A : Type} (key : A -> Z) (n : nat) (pool out : list A) : Prop :=
  newest_first key out /\
  List.length out = Nat.min n (List.length pool) /\
  exists rest, Permutation pool (out ++ rest) /\
               forall x y, In x out -> In y rest -> key y <= key x.

(** ** The rows a statement selects *)

Definition box_readings (boxId : string) (logs : list sensor_row) : list sensor_row :=
  filter (fun r => sql_eq (sl_box_id r) (JStr boxId)) logs.

Definition history_hits (boxId : string) (t : Z) (logs : list sensor_row) : list sensor_row :=
  filter (fun r => sql_eq (sl_box_id r) (JStr boxId) && (t - day <? sl_timestamp r)) logs.

Definition box_reports (boxId : string) (rows : list compartment_row) : list compartment_row :=
  filter (fun r => sql_eq (cs_box_id r) (JStr boxId)) rows.

Definition untaken (boxId : string) (rows : list schedule_row) : list schedule_row :=
  filter (fun r => sql_eq (ms_box_id r) (JStr boxId) && (ms_is_taken r =? 0)) rows.

Definition box_schedule (boxId : string) (rows : list schedule_row) : list schedule_row :=
  filter (fun r => sql_eq (ms_box_id r) (JStr boxId)) rows.

(** The schedule table after the UPDATE for [scheduleId] ran at time [t]. *)
Definition taken_now (scheduleId : jsval) (t : Z) (rows : list schedule_row) : list schedule_row :=
  map (fun r => if sql_eq (ms_id r) scheduleId then mark_taken t r else r) rows.

(** The id of a row against the id of a request, when both are strings or
    both are numbers: they are the same id, or they are two ids.  (A string
    against a number goes through the conversions of the engine, which the
    repository does not fix; nothing is said about that case.) *)
Inductive same_id : jsval -> jsval -> Prop :=
| same_string (s : string) : same_id (JStr s) (JStr s)
| same_number (x y : spec_float) : SFeqb x y = true -> same_id (JNum x) (JNum y).

Inductive another_id : jsval -> jsval -> Prop :=
| another_string (s s' : string) : s <> s' -> another_id (JStr s) (JStr s')
| another_number (x y : spec_float) : SFeqb x y = false -> another_id (JNum x) (JNum y).

(** A schedule row [r] and the same row [r'] after a completion of
    [scheduleId] at store time [t]: it is the same entry; when its id is
    [scheduleId] it is now taken, and taken at [t], whatever it was before;
    when it has another id it is untouched. *)
Definition completed (scheduleId : jsval) (t : Z) (r r' : schedule_row) : Prop :=
  ms_id r' = ms_id r /\
  ms_box_id r' = ms_box_id r /\
  ms_scheduled_time r' = ms_scheduled_time r /\
  (same_id (ms_id r) scheduleId -> ms_is_taken r' = 1 /\ ms_taken_time r' = Some t) /\
  (another_id (ms_id r) scheduleId -> r' = r).

(** What a second completion may change in a row: only [taken_time], and
    only in the rows the id selects. *)
Definition retimed (scheduleId : jsval) (t : Z) (r1 r2 : schedule_row) : Prop :=
  ms_id r2 = ms_id r1 /\
  ms_box_id r2 = ms_box_id r1 /\
  ms_scheduled_time r2 = ms_scheduled_time r1 /\
  ms_is_taken r2 = ms_is_taken r1 /\
  (sql_eq (ms_id r1) scheduleId = false -> r2 = r1) /\
  (sql_eq (ms_id r1) scheduleId = true -> ms_taken_time r2 = Some t).

(** A compartment row with another compartment id. *)
Definition relabel (g : compartment_row -> jsval) (r : compartment_row) : compartment_row :=
  {| cs_box_id := cs_box_id r;
     cs_compartment_id := g r;
     cs_is_open := cs_is_open r;
     cs_timestamp := cs_timestamp r |}.

(** The world whose compartment rows carry other compartment ids. *)
Definition relabelled (g : compartment_row -> jsval) (w : world) : world :=
  with_db w (with_compartment_status (db w) (map (relabel g) (compartment_status (db w)))).

(** ** The behaviour of the store *)

(** The next [n] store operations (acquisitions and queries) do not fail. *)
Definition calm (w : world) (n : nat) : Prop :=
  forall i, (i < n)%nat -> fails (fate w (i + tick w)) = None.

(** The store clock [n] operations later. *)
Fixpoint clock_after (w : world) (n : nat) : Z :=
  match n with
  | O => clock w
  | S m => clock_after w m + Z.of_N (elapsed (fate w (m + tick w)))
  end.

(** [w1] is [w] one store operation later. *)
Definition follows (w w1 : world) : Prop :=
  fate w1 = fate w /\
  tick w1 = S (tick w) /\
  clock w1 = clock w + Z.of_N (elapsed (next_event w)).

(** The readings carry the time of their insert, and the clock does not run
    backwards: whatever the handlers do, no reading is stamped later than
    the clock shows. *)
Definition stamped_in_the_past (w : world) : Prop :=
  Forall (fun r => sl_timestamp r <= clock w) (sensor_logs (db w)).

(** ** The worlds along a run *)

Definition acquired (c : connection) (rest : list connection) (w : world) : world :=
  record (Acquired c) (with_pool (advance w) rest (c :: active w)).

Definition acquire_failed (w : world) : world := record AcquireFailed (advance w).

Definition released (c : connection) (w : world) : world :=
  record (Released c) (with_pool w (idle w ++ [c]) (remove_first c (active w))).

(** The world after connection [c] ran a statement that left the tables as [d]. *)
Definition queried (c : connection) (stmt : statement) (args : list jsval)
           (ok : bool) (d : database) (w : world) : world :=
  record (Queried c stmt args ok) (with_db (advance w) d).

(** ** The request of an ingestion *)

(** [undefined] and [null]: the values whose properties cannot be read. *)
Definition nullish (v : jsval) : bool :=
  match v with
  | JUndefined => true
  | JNull => true
  | _ => false
  end.

(** The value of [v.k] when [v] is not nullish. *)
Definition field (v : jsval) (k : string) : jsval :=
  match v with
  | JObj props => lookup k props
  | _ => JUndefined
  end.

(** The compartment reports the handler loops over: the elements of
    [compartmentStatus] when it is an array, none otherwise. *)
Definition reported (body : jsval) : list jsval :=
  let compartmentStatus := field body "compartmentStatus" in
  if truthy (js_and compartmentStatus (JBool (isArray compartmentStatus)))
  then elements compartmentStatus
  else [].

(** The parameters and the row of the reading. *)
Definition reading_args (body : jsval) : list jsval :=
  [field body "boxId"; field body "temperature"; field body "humidity"].

Definition reading_row (body : jsval) (t : Z) : sensor_row :=
  {| sl_box_id := field body "boxId";
     sl_temperature := field body "temperature";
     sl_humidity := field body "humidity";
     sl_timestamp := t |}.

(** The integer that a value stands for, when the value is a number and the
    number is an integer: the double (-1)^s * m * 2^e is an integer when
    shifting m by e loses no bit. *)
Definition integer_of (v : jsval) : option Z :=
  match v with
  | JNum (S754_zero _) => Some 0
  | JNum (S754_finite s m e) =>
      let n := Z.shiftl (Z.pos m) e in
      if Z.shiftl n (- e) =? Z.pos m
      then Some (if s then - n else n)
      else None
  | _ => None
  end.

(** The parameters and the row of one compartment report. *)
Definition is_open_flag (compartment : jsval) : jsval :=
  if truthy (field compartment "isOpen") then js_one else js_zero.

Definition compartment_args (boxId compartment : jsval) : list jsval :=
  [boxId; field compartment "id"; is_open_flag compartment].

Definition compartment_row_of (boxId compartment : jsval) (t : Z) : compartment_row :=
  {| cs_box_id := boxId;
     cs_compartment_id := field compartment "id";
     cs_is_open := is_open_flag compartment;
     cs_timestamp := t |}.

(** The compartment rows the store writes for the reports [xs] when [done]
    operations have run since [w]: each report takes one more operation and
    is stamped with the clock of that operation. *)
Fixpoint compartment_rows (boxId : jsval) (w : world) (done : nat) (xs : list jsval)
  : list compartment_row :=
  match xs with
  | [] => []
  | x :: rest =>
      compartment_row_of boxId x (clock_after w (S done))
        :: compartment_rows boxId w (S done) rest
  end.

(** The inserts of one ingestion, in the order the handler issues them: the
    reading, then one per compartment report. *)
Definition planned_inserts (body : jsval) : list (statement * list jsval) :=
  (INSERT_sensor_logs, reading_args body)
    :: map (fun x => (INSERT_compartment_status, compartment_args (field body "boxId") x))
           (reported body).

(** The journal entry of an insert run on connection [c]. *)
Definition attempt (c : connection) (ok : bool) (q : statement * list jsval) : io :=
  Queried c (fst q) (snd q) ok.

Definition compartment_query (c : connection) (boxId compartment : jsval) : io :=
  Queried c INSERT_compartment_status (compartment_args boxId compartment) true.

(** ** The runs of the ingestion handler *)

(** The body of the loop over [compartmentStatus], as post_sensor_data has it. *)
Definition store_compartment (c : connection) (boxId compartment : jsval) : M unit :=
  id <- lift (get compartment "id") ;;
  isOpen <- lift (get compartment "isOpen") ;;
  conn_query c INSERT_compartment_status
    [boxId; id; if truthy isOpen then js_one else js_zero] ;;
  ret tt.

Definition reading_inserted (c : connection) (body : jsval) (w : world) : world :=
  queried c INSERT_sensor_logs (reading_args body) true
    (with_sensor_logs (db w) (sensor_logs (db w) ++ [reading_row body (clock (advance w))])) w.

Definition reading_refused (c : connection) (body : jsval) (w : world) : world :=
  queried c INSERT_sensor_logs (reading_args body) false (db w) w.

Definition compartment_inserted (c : connection) (boxId compartment : jsval) (w : world) : world :=
  queried c INSERT_compartment_status (compartment_args boxId compartment) true
    (with_compartment_status (db w)
       (compartment_status (db w)
          ++ [compartment_row_of boxId compartment (clock (advance w))])) w.

Definition compartment_refused (c : connection) (boxId compartment : jsval) (w : world) : world :=
  queried c INSERT_compartment_status (compartment_args boxId compartment) false (db w) w.

(** How the loop runs: it stops at the first report that cannot be read or
    whose insert the store refuses. *)
Inductive loop_run (c : connection) (boxId : jsval)
  : list jsval -> world -> outcome unit -> world -> Prop :=
| loop_done w :
    loop_run c boxId [] w (Normal tt) w
| loop_unreadable x rest w e :
    get x "id" = Thrown e ->
    loop_run c boxId (x :: rest) w (Thrown e) w
| loop_refused x rest w msg :
    nullish x = false ->
    fails (next_event w) = Some msg ->
    loop_run c boxId (x :: rest) w (Thrown (Error msg)) (compartment_refused c boxId x w)
| loop_next x rest w o w' :
    nullish x = false ->
    fails (next_event w) = None ->
    loop_run c boxId rest (compartment_inserted c boxId x w) o w' ->
    loop_run c boxId (x :: rest) w o w'.

(** What a run of the loop leaves behind. [k] is the number of reports
    stored before the loop ended. *)
Record loop_effect (c : connection) (boxId : jsval) (xs : list jsval)
       (w : world) (o : outcome unit) (w' : world) (k : nat) : Prop := {
  le_bound : (k <= List.length xs)%nat;
  le_calm : calm w k;
  le_readable : Forall (fun x => nullish x = false) (firstn k xs);
  le_sensor_logs : sensor_logs (db w') = sensor_logs (db w);
  le_medication_schedule : medication_schedule (db w') = medication_schedule (db w);
  le_compartment_status :
    compartment_status (db w')
    = compartment_status (db w) ++ compartment_rows boxId w 0 (firstn k xs);
  le_idle : idle w' = idle w;
  le_active : active w' = active w;
  le_fate : fate w' = fate w;
  le_outcome :
    match o with
    | Normal _ =>
        k = List.length xs /\
        tick w' = (k + tick w)%nat /\
        clock w' = clock_after w k /\
        journal w' = journal w ++ map (compartment_query c boxId) xs
    | Thrown e =>
        exists x, nth_error xs k = Some x /\
          ((nullish x = true /\
            tick w' = (k + tick w)%nat /\
            clock w' = clock_after w k /\
            journal w' = journal w ++ map (compartment_query c boxId) (firstn k xs))
           \/
           (nullish x = false /\
            fails (fate w (k + tick w)) = Some (message e) /\
            tick w' = (S k + tick w)%nat /\
            clock w' = clock_after w (S k) /\
            journal w' = journal w ++ map (compartment_query c boxId) (firstn k xs)
                           ++ [Queried c INSERT_compartment_status
                                 (compartment_args boxId x) false]))
    end
}.

Definition failure (e : error) : response :=
  {| status := 500; json := Failure (message e) |}.

Definition acknowledged (msg : string) : response :=
  {| status := 200; json := Ack msg |}.

Definition ingest_reply (o : outcome unit) : response :=
  match o with
  | Normal _ => acknowledged "Data received successfully"
  | Thrown e => failure e
  end.

(** The five ways an ingestion can go. *)
Inductive ingest_run (req : request) (w : world) : list response -> world -> Prop :=
| ingest_unreadable e :
    destructure "boxId" "req.body" (req_body req) "boxId" = Thrown e ->
    ingest_run req w [failure e] w
| ingest_store_down msg :
    nullish (req_body req) = false ->
    fails (next_event w) = Some msg ->
    ingest_run req w [failure (Error msg)] (acquire_failed w)
| ingest_pool_empty :
    nullish (req_body req) = false ->
    fails (next_event w) = None ->
    idle w = [] ->
    ingest_run req w [failure pool_timeout] (acquire_failed w)
| ingest_reading_refused c rest msg :
    nullish (req_body req) = false ->
    fails (next_event w) = None ->
    idle w = c :: rest ->
    fails (next_event (acquired c rest w)) = Some msg ->
    ingest_run req w [failure (Error msg)]
      (released c (reading_refused c (req_body req) (acquired c rest w)))
| ingest_compartments c rest o w' :
    nullish (req_body req) = false ->
    fails (next_event w) = None ->
    idle w = c :: rest ->
    fails (next_event (acquired c rest w)) = None ->
    loop_run c (field (req_body req) "boxId") (reported (req_body req))
      (reading_inserted c (req_body req) (acquired c rest w)) o w' ->
    ingest_run req w [ingest_reply o] (released c w').

(** ** The pool discipline *)

(** A journal entry of a statement run on connection [c]. *)
Definition on_connection (c : connection) (e : io) : Prop :=
  exists stmt args ok, e = Queried c stmt args ok.

(** The pool after a request, against the pool before it: the handler either
    took the first idle connection, used only that one, and gave it back as
    its last act, or it took none (the acquisition failed, or it was never
    reached) and gave none back.  Either way no connection stays borrowed. *)
Definition connection_returned (w w' : world) : Prop :=
  active w' = active w /\
  ((exists c rest qs,
       idle w = c :: rest /\ idle w' = rest ++ [c] /\
       journal w' = journal w ++ Acquired c :: qs ++ [Released c] /\
       Forall (on_connection c) qs)
   \/ (idle w' = idle w /\ journal w' = journal w ++ [AcquireFailed])
   \/ (idle w' = idle w /\ journal w' = journal w)).

(** ** Devices, stores and tables for the examples *)

(** A store that answers every operation a minute after the previous one. *)
Definition every_minute : nat -> store_event :=
  fun _ => {| fails := None; elapsed := 60 |}.


(** A store that refuses its operation number [n] and answers the others. *)
Definition refuses (n : nat) : nat -> store_event :=
  fun i => {| fails := if Nat.eqb i n then Some "Lock wait timeout exceeded" else None;
              elapsed := 60 |}.

Definition empty : database :=
  {| sensor_logs := []; compartment_status := []; medication_schedule := [] |}.

Definition js_two : jsval := JNum (S754_finite false 4503599627370496 (-51)).

(** The numbers 22.5 and 40. *)
Definition js_22_5 : jsval := JNum (S754_finite false 6333186975989760 (-48)).
Definition js_40 : jsval := JNum (S754_finite false 5629499534213120 (-47)).

(** The request of a device that reports one compartment. *)
Definition one_compartment (box : string) (id : jsval) (isOpen : bool) : request :=
  {| req_body :=
       JObj [("boxId", JStr box);
             ("temperature", js_22_5);
             ("humidity", js_40);
             ("compartmentStatus", JArr [JObj [("id", id); ("isOpen", JBool isOpen)]])];
     req_boxId := "" |}.

(** The report of the specification's scenario:
    {boxId:"box1", temperature:22.5, humidity:40,
     compartmentStatus:[{id:1,isOpen:true},{id:2,isOpen:false}]}. *)
Definition two_compartments : request :=
  {| req_body :=
       JObj [("boxId", JStr "box1");
             ("temperature", js_22_5);
             ("humidity", js_40);
             ("compartmentStatus",
              JArr [JObj [("id", js_one); ("isOpen", JBool true)];
                    JObj [("id", js_two); ("isOpen", JBool false)]])];
     req_boxId := "" |}.

(** A report whose isOpen values are not booleans. *)
Definition odd_flags : request :=
  {| req_body :=
       JObj [("boxId", JStr "box1");
             ("compartmentStatus",
              JArr [JObj [("id", js_one); ("isOpen", JStr "no")];
                    JObj [("id", js_two); ("isOpen", js_zero)];
                    JObj [("id", JStr "three")]])];
     req_boxId := "" |}.

(** A GET request for a box. *)
Definition ask (box : string) : request :=
  {| req_body := JObj []; req_boxId := box |}.

(** The request that completes a schedule entry. *)
Definition complete (scheduleId : jsval) : request :=
  {| req_body := JObj [("scheduleId", scheduleId)]; req_boxId := "" |}.

(** Compartment 2 reports once, then compartment 1 four times. *)
Definition busy_before : world :=
  after POST_sensor_data (one_compartment "box1" js_one true)
    (after POST_sensor_data (one_compartment "box1" js_one false)
       (after POST_sensor_data (one_compartment "box1" js_one true)
          (after POST_sensor_data (one_compartment "box1" js_two true)
             (boot empty 0 every_minute)))).

Definition busy_compartment : world :=
  after POST_sensor_data (one_compartment "box1" js_one false) busy_before.

(** A schedule table as the seeding collaborator could leave it. *)
Definition entry (id : jsval) (box : string) (due : Z) (taken : Z) (at_time : option Z)
  : schedule_row :=
  {| ms_id := id; ms_box_id := JStr box; ms_scheduled_time := due;
     ms_is_taken := taken; ms_taken_time := at_time |}.

Definition seeded : database :=
  {| sensor_logs := [];
     compartment_status := [];
     medication_schedule :=
       [entry js_two "box1" 7200 0 None;
        entry js_one "box1" 3600 0 None;
        entry (JStr "x") "box1" 1800 1 (Some 1900);
        entry (JStr "y") "box2" 900 0 None] |}.



(** ** More vocabulary: what holds on every path and over many requests *)

(** A request answered with exactly one response, a success or a failure. *)
Definition answered_once (rs : list response) : Prop :=
  exists r, rs = [r] /\
    ((status r = 200 /\ success r = true) \/ (status r = 500 /\ success r = false)).

(** Why no connection can be had: the store refuses the acquisition, or no
    connection of the pool is idle. *)
Definition acquisition_error (w : world) : option error :=
  match fails (next_event w) with
  | Some msg => Some (Error msg)
  | None =>
      match idle w with
      | [] => Some pool_timeout
      | _ :: _ => None
      end
  end.

(** The routes that read req.body. *)
Definition reads_body (rt : route) : bool :=
  match rt with
  | POST_sensor_data => true
  | POST_complete => true
  | _ => false
  end.

(** A schedule row against the same row one request later: it is the same
    entry, and it is untouched or taken. *)
Definition kept_or_taken (r1 r2 : schedule_row) : Prop :=
  ms_id r2 = ms_id r1 /\
  ms_box_id r2 = ms_box_id r1 /\
  ms_scheduled_time r2 = ms_scheduled_time r1 /\
  (r2 = r1 \/ ms_is_taken r2 = 1).

(** The tables one request later: the two logs have only grown at their
    end, and the schedule has the same entries in the same order, each
    untouched or taken. *)
Definition tables_grow (d d' : database) : Prop :=
  (exists new, sensor_logs d' = sensor_logs d ++ new) /\
  (exists new, compartment_status d' = compartment_status d ++ new) /\
  Forall2 kept_or_taken (medication_schedule d) (medication_schedule d').

(** The requests served one after the other. *)
Definition serve_all (reqs : list (route * request)) (w : world) : world :=
  fold_left (fun w q => after (fst q) (snd q) w) reqs w.

(** No connection is borrowed and the pool has all its connections idle. *)
Definition pool_whole (w : world) : Prop :=
  active w = [] /\ Permutation (seq 0 connectionLimit) (idle w).

(** No compartment row is stamped later than the clock shows. *)
Definition reports_in_the_past (w : world) : Prop :=
  Forall (fun r => cs_timestamp r <= clock w) (compartment_status (db w)).

(** Both logs list their rows in the order of their timestamps, and no row
    is stamped later than the clock shows. *)
Definition chronological (w : world) : Prop :=
  stamped_in_the_past w /\
  reports_in_the_past w /\
  oldest_first sl_timestamp (sensor_logs (db w)) /\
  oldest_first cs_timestamp (compartment_status (db w)).

(** A report whose second compartment entry is null. *)
Definition broken_report : request :=
  {| req_body :=
       JObj [("boxId", JStr "box1");
             ("temperature", js_22_5);
             ("humidity", js_40);
             ("compartmentStatus",
              JArr [JObj [("id", js_one); ("isOpen", JBool true)];
                    JNull;
                    JObj [("id", js_two); ("isOpen", JBool false)]])];
     req_boxId := "" |}.

(** * Lemmas and theorems *)

(** ** Facts about ORDER BY and LIMIT *)

Section OrderBy.
Context {A : Type}.
Variable before : A -> A -> bool.

Lemma insert_by_perm (x : A) (l : list A) :
  Permutation (x :: l) (insert_by before x l).
Proof.
  induction l as [| y rest IH]; simpl.
  - apply Permutation_refl.
  - destruct (before x y).
    + apply Permutation_refl.
    + eapply perm_trans; [apply perm_swap | apply perm_skip, IH].
Qed.

Lemma sort_by_perm (l : list A) : Permutation l (sort_by before l).
Proof.
  induction l as [| x rest IH]; simpl.
  - constructor.
  - eapply perm_trans; [apply perm_skip, IH | apply insert_by_perm].
Qed.

Lemma sort_by_In (l : list A) (x : A) : In x (sort_by before l) <-> In x l.
Proof.
  split; intro H.
  - eapply Permutation_in; [apply Permutation_sym, sort_by_perm | exact H].
  - eapply Permutation_in; [apply sort_by_perm | exact H].
Qed.

Lemma sort_by_length (l : list A) : List.length (sort_by before l) = List.length l.
Proof. symmetry. apply Permutation_length, sort_by_perm. Qed.

Hypothesis before_total : forall x y, before x y = false -> before y x = true.
Hypothesis before_trans :
  forall x y z, before x y = true -> before y z = true -> before x z = true.

Let precedes (x y : A) : Prop := before x y = true.

Lemma insert_by_sorted (x : A) (l : list A) :
  StronglySorted precedes l -> StronglySorted precedes (insert_by before x l).
Proof.
  induction 1 as [| y rest Hrest IH Hy]; simpl.
  - repeat constructor.
  - destruct (before x y) eqn:E.
    + constructor; [constructor; assumption |].
      constructor; [exact E |].
      eapply Forall_impl; [| exact Hy].
      intros z Hz. exact (before_trans _ _ _ E Hz).
    + constructor; [exact IH |].
      apply Forall_forall. intros z Hz.
      apply (Permutation_in _ (Permutation_sym (insert_by_perm x rest))) in Hz.
      destruct Hz as [<- | Hz].
      * apply before_total, E.
      * rewrite Forall_forall in Hy. apply Hy, Hz.
Qed.

Lemma sort_by_sorted (l : list A) : StronglySorted precedes (sort_by before l).
Proof.
  induction l as [| x rest IH]; simpl.
  - constructor.
  - apply insert_by_sorted, IH.
Qed.
End OrderBy.

(** Sorting commutes with a change of rows that keeps the order of keys. *)
Lemma sort_by_map {A B : Type} (f : A -> B) (beforeA : A -> A -> bool)
      (beforeB : B -> B -> bool) (l : list A) :
  (forall x y, beforeB (f x) (f y) = beforeA x y) ->
  sort_by beforeB (map f l) = map f (sort_by beforeA l).
Proof.
  intro Hf. induction l as [| x rest IH]; simpl; [reflexivity |].
  rewrite IH. generalize (sort_by beforeA rest) as s.
  induction s as [| y s IHs]; simpl; [reflexivity |].
  rewrite Hf. destruct (beforeA x y); simpl; [reflexivity |].
  now rewrite IHs.
Qed.

Lemma filter_map_commute {A B : Type} (f : A -> B) (p : B -> bool) (l : list A) :
  filter p (map f l) = map f (filter (fun x => p (f x)) l).
Proof.
  induction l as [| x rest IH]; simpl; [reflexivity |].
  destruct (p (f x)); simpl; now rewrite IH.
Qed.

Lemma StronglySorted_weaken {A : Type} (R S : A -> A -> Prop) (l : list A) :
  (forall x y, R x y -> S x y) -> StronglySorted R l -> StronglySorted S l.
Proof.
  intros HRS. induction 1 as [| x rest Hrest IH Hx]; constructor.
  - exact IH.
  - eapply Forall_impl; [| exact Hx]. intros y. apply HRS.
Qed.

Lemma order_by_desc_sorted {A : Type} (key : A -> Z) (l : list A) :
  newest_first key (order_by_desc key l).
Proof.
  unfold newest_first, order_by_desc.
  eapply StronglySorted_weaken.
  2: { apply (sort_by_sorted (desc key)); unfold desc; intros; lia. }
  intros x y H. unfold desc in H. lia.
Qed.


(** The first [n] rows of a list sorted newest first are its [n] newest:
    whatever is cut off is no newer than anything kept. *)
Lemma StronglySorted_firstn_skipn {A : Type} (R : A -> A -> Prop) (n : nat) (l : list A) :
  StronglySorted R l ->
  forall x y, In x (firstn n l) -> In y (skipn n l) -> R x y.
Proof.
  intros Hs. revert n.
  induction Hs as [| a rest Hrest IH Ha]; intros n x y Hx Hy.
  - destruct n; simpl in Hx; contradiction.
  - destruct n as [| n]; simpl in *; [contradiction |].
    destruct Hx as [<- | Hx].
    + rewrite Forall_forall in Ha. apply Ha.
      rewrite <- (firstn_skipn n rest). apply in_or_app. now right.
    + eapply IH; eassumption.
Qed.

Lemma StronglySorted_firstn {A : Type} (R : A -> A -> Prop) (n : nat) (l : list A) :
  StronglySorted R l -> StronglySorted R (firstn n l).
Proof.
  intros Hs. revert n.
  induction Hs as [| a rest Hrest IH Ha]; intros [| n]; simpl; try constructor.
  - apply IH.
  - rewrite Forall_forall in *. intros y Hy. apply Ha.
    rewrite <- (firstn_skipn n rest). apply in_or_app. now left.
Qed.

Lemma limit_order_by_desc {A : Type} (key : A -> Z) (n : nat) (pool : list A) :
  most_recent key n pool (limit n (order_by_desc key pool)).
Proof.
  unfold most_recent, limit. split; [| split].
  - apply StronglySorted_firstn, order_by_desc_sorted.
  - rewrite length_firstn. unfold order_by_desc. now rewrite sort_by_length.
  - exists (skipn n (order_by_desc key pool)). split.
    + rewrite firstn_skipn. apply sort_by_perm.
    + intros x y Hx Hy.
      exact (StronglySorted_firstn_skipn _ n _ (order_by_desc_sorted key pool) x y Hx Hy).
Qed.

(** ** The store's next operations *)

Lemma calm_here (w : world) (n : nat) :
  calm w (S n) -> fails (next_event w) = None.
Proof. intro H. apply (H O). lia. Qed.

Lemma calm_weaken (w : world) (n m : nat) : (m <= n)%nat -> calm w n -> calm w m.
Proof. intros Hmn H i Hi. apply H. lia. Qed.

Lemma clock_after_mono (w : world) (n : nat) : clock w <= clock_after w n.
Proof. induction n; simpl; lia. Qed.

(** ** Reading the properties of a value *)

Lemma get_field (v : jsval) (k : string) :
  nullish v = false -> get v k = Normal (field v k).
Proof. destruct v; simpl; intro H; try discriminate; reflexivity. Qed.

Lemma get_nullish (v : jsval) (k : string) :
  nullish v = true -> exists e, get v k = Thrown e.
Proof. destruct v; simpl; intro H; try discriminate; eexists; reflexivity. Qed.

Lemma get_Normal (v : jsval) (k : string) (x : jsval) :
  get v k = Normal x -> nullish v = false /\ x = field v k.
Proof. destruct v; simpl; intro H; inversion H; auto. Qed.

Lemma get_Thrown (v : jsval) (k : string) (e : error) :
  get v k = Thrown e -> nullish v = true.
Proof. destruct v; simpl; intro H; try discriminate; reflexivity. Qed.

Lemma destructure_field (first source : string) (v : jsval) (k : string) :
  nullish v = false -> destructure first source v k = Normal (field v k).
Proof. destruct v; simpl; intro H; try discriminate; reflexivity. Qed.

Lemma destructure_nullish (first source : string) (v : jsval) (k : string) :
  nullish v = true -> exists e, destructure first source v k = Thrown e.
Proof. destruct v; simpl; intro H; try discriminate; eexists; reflexivity. Qed.

Lemma destructure_Thrown (first source : string) (v : jsval) (k : string) (e : error) :
  destructure first source v k = Thrown e -> nullish v = true.
Proof. destruct v; simpl; intro H; try discriminate; reflexivity. Qed.

(** ** The loop over the compartment reports *)

Lemma store_compartment_run (c : connection) (boxId x : jsval) (s : frame) :
  store_compartment c boxId x s =
    match get x "id" with
    | Thrown e => (Thrown e, s)
    | Normal _ =>
        match fails (next_event (wld s)) with
        | Some msg => (Thrown (Error msg), set_world s (compartment_refused c boxId x (wld s)))
        | None => (Normal tt, set_world s (compartment_inserted c boxId x (wld s)))
        end
    end.
Proof.
  unfold store_compartment, bind, lift, conn_query, ret.
  destruct (nullish x) eqn:Hx.
  - destruct x; try discriminate; reflexivity.
  - rewrite !(get_field _ _ Hx).
    destruct (fails (next_event (wld s))); reflexivity.
Qed.

Lemma for_of_loop_run (c : connection) (boxId : jsval) (xs : list jsval) :
  forall s,
    loop_run c boxId xs (wld s)
      (fst (for_of xs (store_compartment c boxId) s))
      (wld (snd (for_of xs (store_compartment c boxId) s))) /\
    conn (snd (for_of xs (store_compartment c boxId) s)) = conn s /\
    sent (snd (for_of xs (store_compartment c boxId) s)) = sent s.
Proof.
  induction xs as [| x rest IH]; intro s; simpl.
  - repeat split. constructor.
  - unfold bind. rewrite store_compartment_run.
    destruct (get x "id") as [v | e] eqn:Hget.
    + apply get_Normal in Hget. destruct Hget as [Hx _].
      destruct (fails (next_event (wld s))) as [msg |] eqn:Hf; simpl.
      * repeat split. now apply loop_refused.
      * destruct (IH (set_world s (compartment_inserted c boxId x (wld s)))) as (Hrun & Hc & Hs).
        repeat split; [| exact Hc | exact Hs].
        apply loop_next; assumption.
    + simpl. repeat split. eapply loop_unreadable; eassumption.
Qed.

Lemma clock_after_follows (w w1 : world) (n : nat) :
  follows w w1 -> clock_after w1 n = clock_after w (S n).
Proof.
  intros (Hf & Ht & Hc). induction n as [| n IH].
  - simpl. rewrite Hc. reflexivity.
  - change (clock_after w1 (S n))
      with (clock_after w1 n + Z.of_N (elapsed (fate w1 (n + tick w1)))).
    rewrite IH, Hf, Ht, <- Nat.add_succ_comm. reflexivity.
Qed.

Lemma calm_follows (w w1 : world) (n : nat) :
  follows w w1 -> fails (next_event w) = None -> calm w1 n -> calm w (S n).
Proof.
  intros (Hf & Ht & _) H0 H [| i] Hi.
  - exact H0.
  - rewrite Nat.add_succ_comm, <- Ht, <- Hf. apply H. lia.
Qed.

Lemma fate_follows (w w1 : world) (n : nat) :
  follows w w1 -> fate w1 (n + tick w1) = fate w (S n + tick w).
Proof. intros (Hf & Ht & _). rewrite Hf, Ht, <- Nat.add_succ_comm. reflexivity. Qed.

Lemma compartment_rows_follows (boxId : jsval) (w w1 : world) (xs : list jsval) :
  follows w w1 ->
  forall done, compartment_rows boxId w1 done xs = compartment_rows boxId w (S done) xs.
Proof.
  intro H. induction xs as [| x rest IH]; intro done; simpl; [reflexivity |].
  rewrite IH. f_equal. f_equal. apply (clock_after_follows w w1 (S done) H).
Qed.

Lemma compartment_rows_length (boxId : jsval) (w : world) (xs : list jsval) :
  forall done, List.length (compartment_rows boxId w done xs) = List.length xs.
Proof. induction xs as [| x rest IH]; intro done; simpl; [| rewrite IH]; reflexivity. Qed.

Lemma compartment_rows_params (boxId : jsval) (w : world) (xs : list jsval) :
  forall done,
    map (fun r => [cs_box_id r; cs_compartment_id r; cs_is_open r])
        (compartment_rows boxId w done xs)
    = map (compartment_args boxId) xs.
Proof. induction xs as [| x rest IH]; intro done; simpl; [| rewrite IH]; reflexivity. Qed.

Lemma follows_compartment_inserted (c : connection) (boxId x : jsval) (w : world) :
  follows w (compartment_inserted c boxId x w).
Proof. repeat split. Qed.

Lemma loop_run_effect (c : connection) (boxId : jsval) (xs : list jsval)
      (w : world) (o : outcome unit) (w' : world) :
  loop_run c boxId xs w o w' -> exists k, loop_effect c boxId xs w o w' k.
Proof.
  induction 1 as [w | x rest w e Hget | x rest w msg Hx Hf | x rest w o w' Hx Hf Hrun IH].
  1-3: exists O; constructor; simpl;
    [ lia | intros i Hi; lia | constructor | reflexivity | reflexivity
    | now rewrite app_nil_r | reflexivity | reflexivity | reflexivity | ].
  - repeat split. now rewrite app_nil_r.
  - exists x. split; [reflexivity |]. left.
    repeat split; [eapply get_Thrown; eassumption | now rewrite app_nil_r].
  - exists x. split; [reflexivity |]. right. repeat split; assumption.
  - destruct IH as [k IH].
    pose proof (follows_compartment_inserted c boxId x w) as Hfol.
    exists (S k). constructor; simpl.
    + pose proof (le_bound _ _ _ _ _ _ _ IH). lia.
    + eapply calm_follows; [exact Hfol | exact Hf | exact (le_calm _ _ _ _ _ _ _ IH)].
    + constructor; [exact Hx | exact (le_readable _ _ _ _ _ _ _ IH)].
    + rewrite (le_sensor_logs _ _ _ _ _ _ _ IH). reflexivity.
    + rewrite (le_medication_schedule _ _ _ _ _ _ _ IH). reflexivity.
    + rewrite (le_compartment_status _ _ _ _ _ _ _ IH). simpl.
      rewrite <- app_assoc. simpl.
      rewrite (compartment_rows_follows boxId w _ _ Hfol). reflexivity.
    + rewrite (le_idle _ _ _ _ _ _ _ IH). reflexivity.
    + rewrite (le_active _ _ _ _ _ _ _ IH). reflexivity.
    + rewrite (le_fate _ _ _ _ _ _ _ IH). reflexivity.
    + pose proof (le_outcome _ _ _ _ _ _ _ IH) as Ho.
      destruct o as [[] | e].
      * destruct Ho as (Hk & Ht & Hc & Hj).
        repeat split.
        -- now rewrite Hk.
        -- rewrite Ht. simpl. lia.
        -- rewrite Hc. apply (clock_after_follows w _ k Hfol).
        -- rewrite Hj. simpl. rewrite <- app_assoc. reflexivity.
      * destruct Ho as (y & Hy & Hcase). exists y. split; [exact Hy |].
        destruct Hcase as [(Hn & Ht & Hc & Hj) | (Hn & Hfail & Ht & Hc & Hj)].
        -- left. repeat split; [exact Hn | | |].
           ++ rewrite Ht. simpl. lia.
           ++ rewrite Hc. apply (clock_after_follows w _ k Hfol).
           ++ rewrite Hj. simpl. rewrite <- app_assoc. reflexivity.
        -- right. repeat split; [exact Hn | | | |].
           ++ rewrite <- Hfail. symmetry. f_equal. apply (fate_follows w _ k Hfol).
           ++ rewrite Ht. simpl. lia.
           ++ rewrite Hc. apply (clock_after_follows w _ (S k) Hfol).
           ++ rewrite Hj. simpl. rewrite <- !app_assoc. reflexivity.
Qed.

(** ** The ingestion handler, case by case *)

Ltac unfold_monad :=
  unfold try_catch_finally, report, release_if_acquired,
    console_log, console_error,
    bind, ret, lift, read_conn, assign_conn,
    res_json, res_status_json, conn_release, conn_query, pool_getConnection,
    set_world;
  cbn [wld conn sent].

Lemma ingest_cases (req : request) (w : world) :
  ingest_run req w (responses POST_sensor_data req w) (after POST_sensor_data req w).
Proof.
  unfold responses, after, serve, handler, post_sensor_data.
  destruct (nullish (req_body req)) eqn:Hb.
  - destruct (destructure_nullish "boxId" "req.body" _ "boxId" Hb) as [e He].
    unfold_monad. rewrite He.
    cbn. now apply ingest_unreadable.
  - rewrite !(destructure_field _ _ _ _ Hb). unfold_monad.
    destruct (fails (next_event w)) as [msg |] eqn:H0.
    + cbn. now apply ingest_store_down.
    + destruct (idle w) as [| c rest] eqn:Hi; cbn [idle advance].
      * rewrite Hi. cbn. now apply ingest_pool_empty.
      * rewrite Hi. cbn [wld conn sent execute].
        change (record (Acquired c) (with_pool (advance w) rest (c :: active (advance w))))
          with (acquired c rest w).
        destruct (fails (next_event (acquired c rest w))) as [msg |] eqn:H1.
        -- cbn. now apply ingest_reading_refused.
        -- cbn [wld conn sent].
           match goal with
           | |- context [for_of ?xs ?f] =>
               change f with (store_compartment c (field (req_body req) "boxId"))
           end.
           match goal with
           | |- context [(if ?b then ?l else ?r) ?s] =>
               set (s1 := s);
               assert (Hloop : (if b then l else r) s1
                               = for_of (reported (req_body req))
                                   (store_compartment c (field (req_body req) "boxId")) s1)
                 by (unfold reported; destruct b; reflexivity);
               rewrite Hloop; clear Hloop
           end.
           destruct (for_of_loop_run c (field (req_body req) "boxId")
                       (reported (req_body req)) s1) as (Hrun & Hc & Hs).
           destruct (for_of (reported (req_body req))
                       (store_compartment c (field (req_body req) "boxId")) s1)
             as [o s2].
           cbn [fst snd] in Hrun, Hc, Hs.
           destruct o as [[] | e]; cbn [wld conn sent]; rewrite Hc, Hs; cbn.
           ++ apply (ingest_compartments req w c rest (Normal tt)); assumption.
           ++ apply (ingest_compartments req w c rest (Thrown e)); assumption.
Qed.

(** ** The other handlers, when the store behaves *)

(** Facts about the store's next operations, in the form the unfolded
    handlers ask for them. *)
Lemma calm_2 (w : world) (n : nat) (c : connection) (rest : list connection) :
  calm w (S (S n)) -> fails (next_event (acquired c rest w)) = None.
Proof. intro H. apply (H 1%nat). lia. Qed.

Ltac run_calm Hcalm Hidle :=
  unfold serve, handler, get_latest, get_history, get_schedule, post_complete,
    get_medication_history;
  unfold_monad;
  rewrite (calm_here _ _ Hcalm); cbn [idle advance]; rewrite Hidle;
  cbn [wld conn sent execute];
  match goal with
  | |- context [record (Acquired ?c) (with_pool (advance ?w) ?rest (?c :: active (advance ?w)))] =>
      change (record (Acquired c) (with_pool (advance w) rest (c :: active (advance w))))
        with (acquired c rest w)
  end;
  rewrite (calm_2 _ _ _ _ Hcalm).

Lemma get_history_calm (req : request) (w : world) (c : connection) (rest : list connection) :
  calm w 2 -> idle w = c :: rest ->
  serve GET_history req w =
    ([{| status := 200;
         json := Data (Rows (map SensorLog
                   (order_by_desc sl_timestamp
                      (history_hits (req_boxId req) (clock_after w 2) (sensor_logs (db w)))))) |}],
     released c (queried c SELECT_history [JStr (req_boxId req)] true (db w)
                   (acquired c rest w))).
Proof.
  intros Hcalm Hidle. run_calm Hcalm Hidle. reflexivity.
Qed.

Lemma calm_3 (w : world) (n : nat) (c : connection) (rest : list connection)
      (stmt : statement) (args : list jsval) (ok : bool) (d : database) :
  calm w (S (S (S n))) ->
  fails (next_event (queried c stmt args ok d (acquired c rest w))) = None.
Proof. intro H. apply (H 2%nat). lia. Qed.

Lemma get_schedule_calm (req : request) (w : world) (c : connection) (rest : list connection) :
  calm w 2 -> idle w = c :: rest ->
  serve GET_schedule req w =
    ([{| status := 200;
         json := Data (Rows (map MedicationSchedule
                   (order_by_asc ms_scheduled_time
                      (untaken (req_boxId req) (medication_schedule (db w)))))) |}],
     released c (queried c SELECT_schedule [JStr (req_boxId req)] true (db w)
                   (acquired c rest w))).
Proof.
  intros Hcalm Hidle. run_calm Hcalm Hidle. reflexivity.
Qed.

Lemma get_medication_history_calm (req : request) (w : world) (c : connection) (rest : list connection) :
  calm w 2 -> idle w = c :: rest ->
  serve GET_medication_history req w =
    ([{| status := 200;
         json := Data (Rows (map MedicationSchedule
                   (order_by_desc ms_scheduled_time
                      (box_schedule (req_boxId req) (medication_schedule (db w)))))) |}],
     released c (queried c SELECT_medication_history [JStr (req_boxId req)] true (db w)
                   (acquired c rest w))).
Proof.
  intros Hcalm Hidle. run_calm Hcalm Hidle. reflexivity.
Qed.

Lemma get_latest_calm (req : request) (w : world) (c : connection) (rest : list connection) :
  calm w 3 -> idle w = c :: rest ->
  let boxId := req_boxId req in
  let sensorData :=
    map SensorLog (limit 1 (order_by_desc sl_timestamp (box_readings boxId (sensor_logs (db w))))) in
  let compartmentData :=
    map CompartmentStatus
      (limit 4 (order_by_desc cs_timestamp (box_reports boxId (compartment_status (db w))))) in
  serve GET_latest req w =
    ([{| status := 200; json := Latest (hd_error sensorData) compartmentData |}],
     released c
       (queried c SELECT_latest_compartments [JStr boxId] true (db w)
          (queried c SELECT_latest_sensor [JStr boxId] true (db w) (acquired c rest w)))).
Proof.
  intros Hcalm Hidle boxId sensorData compartmentData. run_calm Hcalm Hidle.
  cbn [wld conn sent execute].
  match goal with
  | |- context [next_event ?x] =>
      change x with (queried c SELECT_latest_sensor [JStr boxId] true (db w) (acquired c rest w))
  end.
  rewrite (calm_3 _ _ _ _ _ _ _ _ Hcalm).
  cbn [wld conn sent execute first_or_null rows_or_empty].
  subst sensorData. unfold box_readings.
  destruct (limit 1 _); reflexivity.
Qed.

Lemma post_complete_calm (req : request) (w : world) (c : connection) (rest : list connection) :
  nullish (req_body req) = false -> calm w 2 -> idle w = c :: rest ->
  let scheduleId := field (req_body req) "scheduleId" in
  serve POST_complete req w =
    ([acknowledged "Medication marked as taken"],
     released c
       (queried c UPDATE_schedule_taken [scheduleId] true
          (with_medication_schedule (db w)
             (taken_now scheduleId (clock_after w 2) (medication_schedule (db w))))
          (acquired c rest w))).
Proof.
  intros Hb Hcalm Hidle scheduleId.
  unfold serve, handler, post_complete. rewrite (destructure_field _ _ _ _ Hb).
  run_calm Hcalm Hidle. reflexivity.
Qed.

(** ** The query and completion handlers *)

Lemma idle_cases (w : world) : idle w <> [] -> exists c rest, idle w = c :: rest.
Proof. destruct (idle w) as [| c rest]; [congruence | eauto]. Qed.

Lemma clock_after_history (req : request) (w : world) (c : connection) (rest : list connection) :
  calm w 2 -> idle w = c :: rest -> clock (after GET_history req w) = clock_after w 2.
Proof.
  intros Hcalm Hidle. unfold after. rewrite (get_history_calm req w c rest Hcalm Hidle).
  reflexivity.
Qed.



Lemma most_recent_one {A : Type} (key : A -> Z) (pool out : list A) :
  most_recent key 1 pool out ->
  (pool = [] -> out = []) /\
  (pool <> [] -> exists r, out = [r]) /\
  (forall r, hd_error out = Some r ->
             In r pool /\ forall r', In r' pool -> key r' <= key r).
Proof.
  intros (Hsorted & Hlen & rest & Hperm & Hrest).
  split; [| split].
  - intros ->. simpl in Hlen. destruct out; [reflexivity | discriminate].
  - intro Hne. destruct pool as [| p pool]; [congruence |].
    simpl in Hlen. destruct out as [| r [| r2 out]]; try discriminate. eauto.
  - intros r Hr. destruct out as [| r0 out]; [discriminate |]. injection Hr as ->.
    split.
    + eapply Permutation_in; [apply Permutation_sym, Hperm |]. now left.
    + intros r' Hr'. apply (Permutation_in _ Hperm) in Hr'.
      simpl in Hr'. destruct Hr' as [<- | Hr']; [lia |].
      apply in_app_or in Hr'. destruct Hr' as [Hr' | Hr'].
      * inversion Hsorted as [| ? ? _ Hall]; subst.
        rewrite Forall_forall in Hall. now apply Hall.
      * apply Hrest; [now left | exact Hr'].
Qed.

(** What the state handler returns, in terms of the tables. *)
Lemma latest_rows (req : request) (w : world) :
  calm w 3 -> idle w <> [] ->
  let readings := box_readings (req_boxId req) (sensor_logs (db w)) in
  let reports := box_reports (req_boxId req) (compartment_status (db w)) in
  exists sensor compartments,
    responses GET_latest req w
      = [{| status := 200;
            json := Latest (option_map SensorLog sensor)
                           (map CompartmentStatus compartments) |}] /\
    (sensor = None <-> readings = []) /\
    (forall r, sensor = Some r ->
               In r readings /\
               forall r', In r' readings -> sl_timestamp r' <= sl_timestamp r) /\
    (forall r, In r readings ->
               (forall r', In r' readings ->
                           sl_timestamp r' <= sl_timestamp r /\
                           (sl_timestamp r' = sl_timestamp r -> r' = r)) ->
               sensor = Some r) /\
    (List.length compartments <= 4)%nat /\
    most_recent cs_timestamp 4 reports compartments.
Proof.
  intros Hcalm Hidle readings reports.
  destruct (idle_cases w Hidle) as (c & rest & Hi).
  pose proof (limit_order_by_desc sl_timestamp 1 readings) as Hone.
  pose proof (limit_order_by_desc cs_timestamp 4 reports) as Hfour.
  destruct (most_recent_one _ _ _ Hone) as (Hnone & Hsome & Hmax).
  set (top := limit 1 (order_by_desc sl_timestamp readings)) in *.
  exists (hd_error top), (limit 4 (order_by_desc cs_timestamp reports)).
  assert (Hnull : hd_error top = None <-> readings = []).
  { split.
    - intro Hn. destruct readings as [| r0 rs] eqn:E; [reflexivity |].
      destruct Hsome as [r Hr]; [discriminate |]. rewrite Hr in Hn. discriminate.
    - intro Hn. rewrite (Hnone Hn). reflexivity. }
  split; [| split; [exact Hnull | split; [exact Hmax | split; [| split; [| exact Hfour]]]]].
  - unfold responses. rewrite (get_latest_calm req w c rest Hcalm Hi). cbn [fst].
    fold readings. fold reports. fold top.
    do 3 f_equal. destruct top; reflexivity.
  - intros r Hr Huniq.
    destruct (hd_error top) as [r0 |] eqn:E.
    + destruct (Hmax r0 eq_refl) as (Hin0 & Hmax0).
      f_equal. apply Huniq; [exact Hin0 |].
      specialize (Hmax0 r Hr). destruct (Huniq r0 Hin0) as (Hle & _). lia.
    + destruct Hnull as [Hempty _]. rewrite (Hempty eq_refl) in Hr. contradiction.
  - destruct Hfour as (_ & Hlen & _). rewrite Hlen. apply Nat.le_min_l.
Qed.

Lemma taken_now_marks (scheduleId : jsval) (t : Z) (rows : list schedule_row) (r : schedule_row) :
  In r (taken_now scheduleId t rows) -> sql_eq (ms_id r) scheduleId = true ->
  ms_is_taken r = 1 /\ ms_taken_time r = Some t.
Proof.
  unfold taken_now. rewrite in_map_iff. intros (r0 & <- & _).
  destruct (sql_eq (ms_id r0) scheduleId) eqn:E.
  - intros _. split; reflexivity.
  - intro H. rewrite E in H. discriminate.
Qed.

Lemma taken_now_nobody (scheduleId : jsval) (t : Z) (rows : list schedule_row) :
  (forall r, In r rows -> sql_eq (ms_id r) scheduleId = false) ->
  taken_now scheduleId t rows = rows.
Proof.
  intro H. unfold taken_now. rewrite <- (map_id rows) at 2.
  apply map_ext_in. intros r Hr. now rewrite (H r Hr).
Qed.

Lemma taken_now_again (scheduleId : jsval) (t : Z) (rows : list schedule_row) :
  (forall r, In r rows -> sql_eq (ms_id r) scheduleId = true -> ms_is_taken r = 1) ->
  Forall2 (retimed scheduleId t) rows (taken_now scheduleId t rows).
Proof.
  induction rows as [| r rows IH]; intro H; simpl; constructor.
  - unfold retimed. destruct (sql_eq (ms_id r) scheduleId) eqn:E; simpl.
    + rewrite (H r (or_introl eq_refl) E). repeat split; congruence.
    + repeat split; congruence.
  - apply IH. intros r' Hr'. apply H. now right.
Qed.

Lemma with_medication_schedule_same (d : database) :
  with_medication_schedule d (medication_schedule d) = d.
Proof. destruct d; reflexivity. Qed.

Lemma calm_after_two (w w1 : world) (n : nat) :
  fate w1 = fate w -> tick w1 = S (S (tick w)) -> calm w (2 + n) -> calm w1 n.
Proof.
  intros Hf Ht H i Hi. rewrite Hf, Ht.
  replace (i + S (S (tick w)))%nat with (2 + i + tick w)%nat by lia.
  apply H. lia.
Qed.

Lemma same_id_selected (a b : jsval) : same_id a b -> sql_eq a b = true.
Proof. intros [s0 | x y H]; simpl; [apply String.eqb_refl | exact H]. Qed.

Lemma another_id_not_selected (a b : jsval) : another_id a b -> sql_eq a b = false.
Proof. intros [s0 s' H | x y H]; simpl; [now apply String.eqb_neq | exact H]. Qed.

Lemma taken_now_completed (scheduleId : jsval) (t : Z) (rows : list schedule_row) :
  Forall2 (completed scheduleId t) rows (taken_now scheduleId t rows).
Proof.
  induction rows as [| r rows IH]; simpl; constructor; [| exact IH].
  unfold completed. destruct (sql_eq (ms_id r) scheduleId) eqn:E; simpl;
    (split; [reflexivity | split; [reflexivity | split; [reflexivity | split]]]).
  - intros _. split; reflexivity.
  - intro H. apply another_id_not_selected in H. congruence.
  - intro H. apply same_id_selected in H. congruence.
  - reflexivity.
Qed.

(** C3. Completing the same schedule entry twice, with a store that
    answers: both calls report success.  Row by row, the table after the
    first call is the table before it in which every row with that id is
    taken (is_taken = 1, taken_time the store time of the call) and every row
    with another id is untouched; the table after the second call is the
    same again, so a row with that id has is_taken = 1 after the first call
    and after the second.  The second call changes nothing but the
    taken_time of the rows it selects, and neither call touches the logs. *)
Theorem completion_is_idempotent (req : request) (w : world) :
  nullish (req_body req) = false -> calm w 4 -> idle w <> [] ->
  let scheduleId := field (req_body req) "scheduleId" in
  let w1 := after POST_complete req w in
  let w2 := after POST_complete req w1 in
  responses POST_complete req w = [acknowledged "Medication marked as taken"] /\
  responses POST_complete req w1 = [acknowledged "Medication marked as taken"] /\
  Forall2 (completed scheduleId (clock w1))
          (medication_schedule (db w)) (medication_schedule (db w1)) /\
  Forall2 (completed scheduleId (clock w2))
          (medication_schedule (db w1)) (medication_schedule (db w2)) /\
  (forall r, In r (medication_schedule (db w1)) ->
             sql_eq (ms_id r) scheduleId = true -> ms_is_taken r = 1) /\
  (forall r, In r (medication_schedule (db w2)) ->
             sql_eq (ms_id r) scheduleId = true -> ms_is_taken r = 1) /\
  Forall2 (retimed scheduleId (clock w2))
          (medication_schedule (db w1)) (medication_schedule (db w2)) /\
  clock w1 = clock_after w 2 /\
  clock w2 = clock_after w 4 /\
  sensor_logs (db w1) = sensor_logs (db w) /\
  compartment_status (db w1) = compartment_status (db w) /\
  sensor_logs (db w2) = sensor_logs (db w1) /\
  compartment_status (db w2) = compartment_status (db w1).
Proof.
  intros Hb Hcalm Hidle scheduleId w1 w2.
  destruct (idle_cases w Hidle) as (c & rest & Hi).
  pose proof (post_complete_calm req w c rest Hb (calm_weaken w 4 2 ltac:(lia) Hcalm) Hi) as H1.
  cbv zeta in H1.
  assert (Hw1 : w1 = snd (serve POST_complete req w)) by reflexivity.
  rewrite H1 in Hw1. cbn [snd] in Hw1.
  assert (Hcalm1 : calm w1 2).
  { apply (calm_after_two w w1 2); [now rewrite Hw1 | now rewrite Hw1 | exact Hcalm]. }
  assert (Hidle1 : exists c1 rest1, idle w1 = c1 :: rest1).
  { rewrite Hw1. cbn. destruct rest; simpl; eauto. }
  destruct Hidle1 as (c1 & rest1 & Hi1).
  pose proof (post_complete_calm req w1 c1 rest1 Hb Hcalm1 Hi1) as H2.
  cbv zeta in H2.
  assert (Hw2 : w2 = snd (serve POST_complete req w1)) by reflexivity.
  rewrite H2 in Hw2. cbn [snd] in Hw2.
  assert (Hmarked : forall r, In r (medication_schedule (db w1)) ->
             sql_eq (ms_id r) scheduleId = true -> ms_is_taken r = 1).
  { intros r Hr Hhit. rewrite Hw1 in Hr. cbn in Hr.
    now destruct (taken_now_marks _ _ _ _ Hr Hhit). }
  assert (Hclock1 : clock w1 = clock_after w 2) by (rewrite Hw1; reflexivity).
  assert (Hclock : clock w2 = clock_after w1 2) by (rewrite Hw2; reflexivity).
  assert (Hfour : clock_after w1 2 = clock_after w 4).
  { rewrite Hw1. reflexivity. }
  assert (Htable1 : medication_schedule (db w1)
                    = taken_now scheduleId (clock w1) (medication_schedule (db w))).
  { rewrite Hclock1. rewrite Hw1. reflexivity. }
  assert (Htable : medication_schedule (db w2)
                   = taken_now scheduleId (clock w2) (medication_schedule (db w1))).
  { rewrite Hclock. rewrite Hw2. reflexivity. }
  split; [| split; [| split; [| split; [| split; [exact Hmarked |]]]]].
  - unfold responses. now rewrite H1.
  - unfold responses. now rewrite H2.
  - rewrite Htable1. apply taken_now_completed.
  - rewrite Htable. apply taken_now_completed.
  - split; [| split; [| split; [exact Hclock1 | split; [| split; [| split; [| split]]]]]].
    + intros r Hr Hhit. rewrite Htable in Hr.
      now destruct (taken_now_marks _ _ _ _ Hr Hhit).
    + rewrite Htable. apply taken_now_again, Hmarked.
    + rewrite Hclock. exact Hfour.
    + rewrite Hw1. reflexivity.
    + rewrite Hw1. reflexivity.
    + rewrite Hw2. reflexivity.
    + rewrite Hw2. reflexivity.
Qed.

(** C8. With a store that answers, the completion handler reports success
    whatever the tables hold: it sends the UPDATE and acknowledges, also
    when the id selects no row (then the tables are left as they were). *)
Theorem completion_succeeds_without_looking (req : request) (w : world) :
  nullish (req_body req) = false -> calm w 2 -> idle w <> [] ->
  let scheduleId := field (req_body req) "scheduleId" in
  let w' := after POST_complete req w in
  responses POST_complete req w = [acknowledged "Medication marked as taken"] /\
  (exists c, journal w' = journal w ++ [Acquired c;
                                        Queried c UPDATE_schedule_taken [scheduleId] true;
                                        Released c]) /\
  ((forall r, In r (medication_schedule (db w)) -> sql_eq (ms_id r) scheduleId = false) ->
   db w' = db w) /\
  (forall w2, calm w2 2 -> idle w2 <> [] ->
              responses POST_complete req w2 = responses POST_complete req w).
Proof.
  intros Hb Hcalm Hidle scheduleId w'.
  destruct (idle_cases w Hidle) as (c & rest & Hi).
  pose proof (post_complete_calm req w c rest Hb Hcalm Hi) as H1. cbv zeta in H1.
  assert (Hw' : w' = snd (serve POST_complete req w)) by reflexivity.
  rewrite H1 in Hw'. cbn [snd] in Hw'.
  split; [| split; [| split]].
  - unfold responses. now rewrite H1.
  - exists c. rewrite Hw'. cbn. rewrite <- !app_assoc. reflexivity.
  - intro Hnone. rewrite Hw'. cbn.
    fold scheduleId. rewrite (taken_now_nobody _ _ _ Hnone).
    apply with_medication_schedule_same.
  - intros w2 Hcalm2 Hidle2.
    destruct (idle_cases w2 Hidle2) as (c2 & rest2 & Hi2).
    unfold responses.
    rewrite (post_complete_calm req w2 c2 rest2 Hb Hcalm2 Hi2), H1. reflexivity.
Qed.

(** ** What an ingestion leaves behind *)

Lemma follows_acquired (c : connection) (rest : list connection) (w : world) :
  follows w (acquired c rest w).
Proof. repeat split. Qed.

Lemma follows_queried (c : connection) (stmt : statement) (args : list jsval)
      (ok : bool) (d : database) (w : world) :
  follows w (queried c stmt args ok d w).
Proof. repeat split. Qed.

Lemma attempt_compartments (c : connection) (boxId : jsval) (xs : list jsval) :
  map (attempt c true)
      (map (fun x => (INSERT_compartment_status, compartment_args boxId x)) xs)
  = map (compartment_query c boxId) xs.
Proof. rewrite map_map. reflexivity. Qed.

(** What an ingestion leaves behind once the reading is stored and the loop
    over the reports has ended after [k] of them. *)
Lemma ingest_loop_effect (req : request) (w : world) (c : connection)
      (rest : list connection) (o : outcome unit) (w' : world) (k : nat) :
  let body := req_body req in
  let boxId := field body "boxId" in
  fails (next_event w) = None ->
  fails (next_event (acquired c rest w)) = None ->
  loop_effect c boxId (reported body) (reading_inserted c body (acquired c rest w)) o w' k ->
  calm w (2 + k) /\
  sensor_logs (db (released c w'))
    = sensor_logs (db w) ++ [reading_row body (clock_after w 2)] /\
  compartment_status (db (released c w'))
    = compartment_status (db w) ++ compartment_rows boxId w 2 (firstn k (reported body)) /\
  medication_schedule (db (released c w')) = medication_schedule (db w) /\
  active (released c w') = active w /\
  idle (released c w') = rest ++ [c].
Proof.
  intros body boxId H0 H1 E.
  pose proof (follows_acquired c rest w) as F1.
  pose proof (follows_queried c INSERT_sensor_logs (reading_args body) true
                (with_sensor_logs (db (acquired c rest w))
                   (sensor_logs (db (acquired c rest w))
                      ++ [reading_row body (clock (advance (acquired c rest w)))]))
                (acquired c rest w)) as F2.
  change (queried _ _ _ _ _ _) with (reading_inserted c body (acquired c rest w)) in F2.
  split; [| split; [| split; [| split; [| split]]]].
  - apply (calm_follows w _ _ F1 H0).
    apply (calm_follows _ _ _ F2 H1).
    exact (le_calm _ _ _ _ _ _ _ E).
  - cbn [released record with_pool db]. rewrite (le_sensor_logs _ _ _ _ _ _ _ E). reflexivity.
  - cbn [released record with_pool db]. rewrite (le_compartment_status _ _ _ _ _ _ _ E).
    rewrite (compartment_rows_follows boxId _ _ _ F2).
    rewrite (compartment_rows_follows boxId _ _ _ F1). reflexivity.
  - cbn [released record with_pool db]. rewrite (le_medication_schedule _ _ _ _ _ _ _ E).
    reflexivity.
  - cbn [released record with_pool active]. rewrite (le_active _ _ _ _ _ _ _ E).
    cbn. now rewrite Nat.eqb_refl.
  - cbn [released record with_pool idle]. rewrite (le_idle _ _ _ _ _ _ _ E). reflexivity.
Qed.

(** A successful ingestion came through every step: the body could be read,
    a connection was idle, no operation failed, every report could be read.
    It stored the reading and then every report, in order. *)
Lemma ingest_success (req : request) (w : world) (r : response) :
  In r (responses POST_sensor_data req w) -> success r = true ->
  let body := req_body req in
  let boxId := field body "boxId" in
  let w' := after POST_sensor_data req w in
  exists c rest,
    nullish body = false /\
    idle w = c :: rest /\
    calm w (2 + List.length (reported body)) /\
    Forall (fun x => nullish x = false) (reported body) /\
    responses POST_sensor_data req w = [acknowledged "Data received successfully"] /\
    sensor_logs (db w') = sensor_logs (db w) ++ [reading_row body (clock_after w 2)] /\
    compartment_status (db w')
      = compartment_status (db w) ++ compartment_rows boxId w 2 (reported body) /\
    medication_schedule (db w') = medication_schedule (db w) /\
    journal w' = journal w ++ Acquired c :: map (attempt c true) (planned_inserts body)
                             ++ [Released c].
Proof.
  intros Hr Hs body boxId w'.
  pose proof (ingest_cases req w) as Hcases. fold w' in Hcases.
  destruct Hcases as [e He | msg Hb H0 | Hb H0 Hi | c rest msg Hb H0 Hi H1
                     | c rest o w2 Hb H0 Hi H1 Hrun];
    try (destruct Hr as [<- | []]; discriminate).
  destruct o as [[] | e]; [| destruct Hr as [<- | []]; discriminate].
  destruct (loop_run_effect _ _ _ _ _ _ Hrun) as [k E].
  destruct (le_outcome _ _ _ _ _ _ _ E) as (Hk & Ht & Hc & Hj).
  destruct (ingest_loop_effect req w c rest _ _ k H0 H1 E)
    as (Hcalm & Hlogs & Hcs & Hms & _ & _).
  pose proof (le_readable _ _ _ _ _ _ _ E) as Hread.
  rewrite Hk, firstn_all in *.
  exists c, rest.
  repeat (split; [assumption || reflexivity |]).
  cbn [released record with_pool journal]. rewrite Hj. cbn.
  unfold planned_inserts. cbn [map]. rewrite attempt_compartments.
  rewrite <- !app_assoc. reflexivity.
Qed.

Lemma reported_array (body : jsval) (xs : list jsval) :
  field body "compartmentStatus" = JArr xs -> reported body = xs.
Proof. unfold reported. intros ->. reflexivity. Qed.

Lemma reported_no_array (body : jsval) :
  isArray (field body "compartmentStatus") = false -> reported body = [].
Proof.
  unfold reported, js_and. intros ->.
  destruct (truthy (field body "compartmentStatus")) eqn:E; [reflexivity |].
  now rewrite E.
Qed.

Lemma compartment_rows_is_open (boxId : jsval) (w : world) (xs : list jsval) :
  forall done,
    Forall2 (fun compartment stored =>
               cs_is_open stored
               = if truthy (field compartment "isOpen") then js_one else js_zero)
            xs (compartment_rows boxId w done xs).
Proof. induction xs as [| x rest IH]; intro done; simpl; constructor; auto. Qed.

(** C1. An ingestion that reports success has stored exactly one reading,
    holding the values of the request, and exactly one compartment row per
    element of the compartmentStatus array (none when it is absent or not
    an array), in the order of the array; the inserts ran one after the
    other on the one connection the handler acquired and released. *)
Theorem successful_ingestion_stores_reading_and_every_report
        (req : request) (w : world) (r : response) :
  In r (responses POST_sensor_data req w) -> success r = true ->
  let body := req_body req in
  let boxId := field body "boxId" in
  let compartmentStatus := field body "compartmentStatus" in
  let w' := after POST_sensor_data req w in
  exists reports reading rows c,
    (forall xs, compartmentStatus = JArr xs -> reports = xs) /\
    (isArray compartmentStatus = false -> reports = []) /\
    sensor_logs (db w') = sensor_logs (db w) ++ [reading] /\
    [sl_box_id reading; sl_temperature reading; sl_humidity reading]
      = [boxId; field body "temperature"; field body "humidity"] /\
    compartment_status (db w') = compartment_status (db w) ++ rows /\
    List.length rows = List.length reports /\
    map (fun row => [cs_box_id row; cs_compartment_id row; cs_is_open row]) rows
      = map (compartment_args boxId) reports /\
    journal w'
      = journal w
        ++ Acquired c
           :: Queried c INSERT_sensor_logs
                [boxId; field body "temperature"; field body "humidity"] true
           :: map (fun x => Queried c INSERT_compartment_status
                              (compartment_args boxId x) true) reports
        ++ [Released c].
Proof.
  intros Hr Hs body boxId compartmentStatus w'.
  destruct (ingest_success req w r Hr Hs)
    as (c & rest & _ & _ & _ & _ & _ & Hlogs & Hcs & _ & Hj).
  exists (reported body), (reading_row body (clock_after w 2)),
    (compartment_rows boxId w 2 (reported body)), c.
  split; [| split; [| split; [| split; [| split; [| split; [| split]]]]]].
  - intros xs Hxs. now apply reported_array.
  - apply reported_no_array.
  - exact Hlogs.
  - reflexivity.
  - exact Hcs.
  - apply compartment_rows_length.
  - apply compartment_rows_params.
  - fold w' in Hj. rewrite Hj. unfold planned_inserts. cbn [map]. fold body. fold boxId.
    rewrite attempt_compartments. reflexivity.
Qed.

(** The falsy values are false, 0, -0, NaN, null, undefined and the empty
    string, and no others. *)
Lemma falsy_values (v : jsval) :
  truthy v = false <->
  v = JBool false \/ (exists sign, v = JNum (S754_zero sign)) \/ v = JNum S754_nan \/
  v = JNull \/ v = JUndefined \/ v = JStr "".
Proof.
  split.
  - destruct v as [| | [|] | [sign | sign | | sign m e] | [| a s] | items | props];
      simpl; intro H; try discriminate; eauto 8.
  - intros [-> | [[sign ->] | [-> | [-> | [-> | ->]]]]]; reflexivity.
Qed.

(** C9. The is_open value of every stored compartment row is fixed by the
    truthiness of the report's isOpen: it is the number 1 when isOpen is
    truthy and the number 0 when it is falsy.  The falsy values are false,
    0, -0, NaN, null, undefined (also a missing isOpen) and the empty
    string; every other value is truthy: true, every non-empty string,
    every non-zero number, the infinities, every array and every object. *)
Theorem stored_is_open_is_truthiness (req : request) (w : world) (r : response) :
  In r (responses POST_sensor_data req w) -> success r = true ->
  let w' := after POST_sensor_data req w in
  (exists rows,
     compartment_status (db w') = compartment_status (db w) ++ rows /\
     Forall2 (fun compartment stored =>
                integer_of (cs_is_open stored)
                = Some (if truthy (field compartment "isOpen") then 1 else 0))
             (reported (req_body req)) rows) /\
  (forall v, truthy v = false <->
             v = JBool false \/ (exists sign, v = JNum (S754_zero sign)) \/
             v = JNum S754_nan \/ v = JNull \/ v = JUndefined \/ v = JStr "") /\
  truthy (JBool true) = true /\
  (forall s, s <> "" -> truthy (JStr s) = true) /\
  (forall sign m e, truthy (JNum (S754_finite sign m e)) = true) /\
  (forall sign, truthy (JNum (S754_infinity sign)) = true) /\
  (forall items, truthy (JArr items) = true) /\
  (forall props, truthy (JObj props) = true) /\
  truthy (JBool false) = false /\
  (forall sign, truthy (JNum (S754_zero sign)) = false) /\
  truthy (JNum S754_nan) = false /\
  truthy JNull = false /\
  truthy JUndefined = false /\
  truthy (JStr "") = false.
Proof.
  intros Hr Hs w'.
  destruct (ingest_success req w r Hr Hs)
    as (c & rest & _ & _ & _ & _ & _ & _ & Hcs & _ & _).
  split; [| split; [exact falsy_values |]].
  - eexists. split; [exact Hcs |].
    eapply Forall2_impl; [| apply compartment_rows_is_open].
    intros compartment stored ->.
    destruct (truthy (field compartment "isOpen")); reflexivity.
  - repeat split; try reflexivity.
    intros s Hs'. simpl. destruct s; [congruence | reflexivity].
Qed.

Lemma fate_of_loop_start (c : connection) (rest : list connection) (body : jsval)
      (w : world) (i : nat) :
  fate (reading_inserted c body (acquired c rest w))
       (i + tick (reading_inserted c body (acquired c rest w)))
  = fate w (2 + i + tick w).
Proof. cbn. f_equal. lia. Qed.

Lemma nth_error_in_firstn {A : Type} (l : list A) (k n : nat) (x : A) :
  nth_error l k = Some x -> (k < n)%nat -> In x (firstn n l).
Proof.
  revert k n. induction l as [| a l IH]; intros [| k] [| n] H Hk; simpl in *;
    try discriminate; try lia.
  - left. congruence.
  - right. apply (IH k n H). lia.
Qed.

(** The converse of [ingest_success]: a request whose body and reports can
    be read succeeds when a connection is idle and the store answers. *)
Lemma ingestion_succeeds_when_the_store_answers (req : request) (w : world) :
  nullish (req_body req) = false ->
  Forall (fun x => nullish x = false) (reported (req_body req)) ->
  idle w <> [] ->
  calm w (2 + List.length (reported (req_body req))) ->
  responses POST_sensor_data req w = [acknowledged "Data received successfully"].
Proof.
  intros Hb Hread Hidle Hcalm.
  assert (H0 : fails (next_event w) = None) by (apply (Hcalm O); lia).
  destruct (ingest_cases req w) as [e He | m Hb' H0' | Hb' H0' Hi | c rest m Hb' H0' Hi H1
                                   | c rest o w2 Hb' H0' Hi H1 Hrun].
  - apply destructure_Thrown in He. congruence.
  - congruence.
  - congruence.
  - assert (fails (next_event (acquired c rest w)) = None) by (apply (Hcalm 1%nat); lia).
    congruence.
  - destruct (loop_run_effect _ _ _ _ _ _ Hrun) as [k E].
    pose proof (le_outcome _ _ _ _ _ _ _ E) as Ho.
    destruct o as [[] | e]; [reflexivity | exfalso].
    destruct Ho as (x & Hx & [(Hn & _) | (_ & Hf & _)]).
    + rewrite Forall_forall in Hread.
      rewrite (Hread x (nth_error_In _ _ Hx)) in Hn. discriminate.
    + assert (Hk : (k < List.length (reported (req_body req)))%nat)
        by (apply nth_error_Some; congruence).
      rewrite fate_of_loop_start in Hf.
      rewrite (Hcalm (2 + k)%nat) in Hf by lia. discriminate.
Qed.

(** C5. When the store refuses insert number [p] of an ingestion (0 is the
    reading, [p] > 0 the compartment report number [p]) after accepting the
    ones before it: the handler answers with the failure, attempts none of
    the remaining inserts, and the rows of the [p] accepted inserts stay in
    the tables.  The first store operation of the request is the
    acquisition of the connection, so insert [p] is operation [1 + p]. *)
Theorem refused_insert_aborts_and_keeps_earlier_rows
        (req : request) (w : world) (p : nat) (msg : string) :
  let body := req_body req in
  let boxId := field body "boxId" in
  let w' := after POST_sensor_data req w in
  nullish body = false ->
  idle w <> [] ->
  calm w (1 + p) ->
  fails (fate w (1 + p + tick w)) = Some msg ->
  (p <= List.length (reported body))%nat ->
  Forall (fun x => nullish x = false) (firstn p (reported body)) ->
  exists c q,
    nth_error (planned_inserts body) p = Some q /\
    responses POST_sensor_data req w = [{| status := 500; json := Failure msg |}] /\
    sensor_logs (db w')
      = sensor_logs (db w)
        ++ match p with
           | O => []
           | S _ => [reading_row body (clock_after w 2)]
           end /\
    compartment_status (db w')
      = compartment_status (db w)
        ++ compartment_rows boxId w 2 (firstn (p - 1) (reported body)) /\
    journal w'
      = journal w
        ++ Acquired c :: map (attempt c true) (firstn p (planned_inserts body))
        ++ [attempt c false q; Released c] /\
    active w' = active w.
Proof.
  intros body boxId w'. subst body boxId.
  intros Hb Hidle Hcalm Hfail Hp Hread.
  pose proof (ingest_cases req w) as Hcases. fold w' in Hcases.
  assert (H0 : fails (next_event w) = None) by (apply (Hcalm O); lia).
  destruct Hcases as [e He | m Hb' H0' | Hb' H0' Hi | c rest m Hb' H0' Hi H1
                     | c rest o w2 Hb' H0' Hi H1 Hrun].
  - apply destructure_Thrown in He. congruence.
  - congruence.
  - congruence.
  - (* the reading was refused *)
    destruct p as [| j].
    2: { assert (fails (next_event (acquired c rest w)) = None) by (apply (Hcalm 1%nat); lia).
         congruence. }
    change (fails (next_event (acquired c rest w))) with (fails (fate w (1 + 0 + tick w))) in H1.
    rewrite Hfail in H1. injection H1 as <-.
    exists c, (INSERT_sensor_logs, reading_args (req_body req)).
    split; [reflexivity | split; [reflexivity | split; [| split; [| split]]]].
    + cbn. now rewrite app_nil_r.
    + cbn. now rewrite app_nil_r.
    + cbn. rewrite <- !app_assoc. reflexivity.
    + cbn. now rewrite Nat.eqb_refl.
  - (* the reading was stored *)
    destruct p as [| j].
    { change (fails (next_event (acquired c rest w))) with (fails (fate w (1 + 0 + tick w))) in H1.
      congruence. }
    destruct (loop_run_effect _ _ _ _ _ _ Hrun) as [k E].
    pose proof (le_calm _ _ _ _ _ _ _ E) as Hk.
    assert (Hrefused : fails (fate (reading_inserted c (req_body req) (acquired c rest w))
                                   (j + tick (reading_inserted c (req_body req) (acquired c rest w))))
                       = Some msg).
    { rewrite fate_of_loop_start. exact Hfail. }
    assert (Hnot_later : ~ (j < k)%nat).
    { intro Hlt. rewrite (Hk j Hlt) in Hrefused. discriminate. }
    assert (Hcalm_before : forall i, (i < j)%nat ->
              fails (fate (reading_inserted c (req_body req) (acquired c rest w))
                          (i + tick (reading_inserted c (req_body req) (acquired c rest w)))) = None).
    { intros i Hi'. rewrite fate_of_loop_start. apply (Hcalm (2 + i)%nat). lia. }
    pose proof (le_outcome _ _ _ _ _ _ _ E) as Ho.
    destruct o as [[] | e].
    { destruct Ho as (Hlen & _). lia. }
    destruct Ho as (x & Hx & [(Hn & _) | (Hn & Hf & Ht & Hc & Hj)]).
    { (* a report that cannot be read would be among the first [S j] *)
      assert (Hin : In x (firstn (S j) (reported (req_body req)))).
      { apply (nth_error_in_firstn _ k); [exact Hx | lia]. }
      rewrite Forall_forall in Hread. rewrite (Hread x Hin) in Hn. discriminate. }
    assert (Hkj : k = j).
    { destruct (Nat.lt_trichotomy k j) as [Hlt | [Heq | Hgt]]; [| exact Heq | lia].
      rewrite (Hcalm_before k Hlt) in Hf. discriminate. }
    subst k. rewrite Hrefused in Hf. destruct e as [m]. simpl in Hf. injection Hf as <-.
    destruct (ingest_loop_effect req w c rest _ _ j H0 H1 E)
      as (_ & Hlogs & Hcs & _ & Hact & _).
    exists c, (INSERT_compartment_status, compartment_args (field (req_body req) "boxId") x).
    split; [| split; [reflexivity | split; [exact Hlogs | split; [| split; [| exact Hact]]]]].
    + unfold planned_inserts. cbn [nth_error]. rewrite nth_error_map.
      rewrite Hx. reflexivity.
    + rewrite Nat.sub_succ, Nat.sub_0_r. exact Hcs.
    + cbn [released record with_pool journal]. rewrite Hj. cbn.
      unfold planned_inserts. cbn [firstn map]. rewrite firstn_map.
      rewrite attempt_compartments. rewrite <- !app_assoc. reflexivity.
Qed.

(** ** The state handler after an ingestion *)

Lemma box_readings_app (boxId : string) (l1 l2 : list sensor_row) :
  box_readings boxId (l1 ++ l2) = box_readings boxId l1 ++ box_readings boxId l2.
Proof. apply filter_app. Qed.

(** The step from [k] readings to [k + 1] in "readings ingested at
    increasing times": a reading ingested for the box once the store clock
    has moved on is newer than every reading the box had. *)
Lemma ingested_reading_is_newest (device : request) (w0 : world) (r : response) (boxId : string) :
  In r (responses POST_sensor_data device w0) -> success r = true ->
  field (req_body device) "boxId" = JStr boxId ->
  stamped_in_the_past w0 ->
  clock w0 < clock_after w0 2 ->
  let new := reading_row (req_body device) (clock_after w0 2) in
  let readings := box_readings boxId (sensor_logs (db (after POST_sensor_data device w0))) in
  In new readings /\
  forall r', In r' readings ->
             sl_timestamp r' <= sl_timestamp new /\
             (sl_timestamp r' = sl_timestamp new -> r' = new).
Proof.
  intros Hr Hs Hbox Hpast Hlater new readings.
  destruct (ingest_success device w0 r Hr Hs)
    as (c & rest & _ & _ & _ & _ & _ & Hlogs & _).
  assert (Hnew : box_readings boxId [new] = [new]).
  { unfold box_readings. cbn. rewrite Hbox. cbn. now rewrite String.eqb_refl. }
  assert (Hreadings : readings = box_readings boxId (sensor_logs (db w0)) ++ [new]).
  { unfold readings. rewrite Hlogs, box_readings_app. fold new. now rewrite Hnew. }
  rewrite Hreadings. split.
  - apply in_or_app. right. now left.
  - intros r' Hr'. apply in_app_or in Hr'. destruct Hr' as [Hold | [<- | []]].
    + unfold box_readings in Hold. apply filter_In in Hold. destruct Hold as (Hold & _).
      unfold stamped_in_the_past in Hpast. rewrite Forall_forall in Hpast.
      specialize (Hpast r' Hold). cbn [new reading_row sl_timestamp]. lia.
    + split; [lia | reflexivity].
Qed.


(** ** The pool discipline *)

Lemma on_connection_Queried (c : connection) (stmt : statement) (args : list jsval) (ok : bool) :
  on_connection c (Queried c stmt args ok).
Proof. unfold on_connection. eauto. Qed.

Ltac returned_with c rest qs :=
  split; [cbn; now rewrite ?Nat.eqb_refl |];
  left; exists c, rest, qs;
  split; [assumption |];
  split; [reflexivity |];
  split; [cbn; rewrite <- ?app_assoc; reflexivity |];
  repeat constructor; apply on_connection_Queried.

Ltac nothing_acquired :=
  split; [reflexivity |]; right;
  first [left; split; reflexivity | right; split; reflexivity].

Ltac next_fate H :=
  match goal with
  | |- context [fails (next_event ?x)] => destruct (fails (next_event x)) eqn:H
  end;
  cbn [wld conn sent snd execute first_or_null rows_or_empty].

Lemma history_returns_connection (req : request) (w : world) :
  connection_returned w (after GET_history req w).
Proof.
  unfold after, serve, handler, get_history. unfold_monad.
  destruct (fails (next_event w)) eqn:H0; [cbn; nothing_acquired |].
  cbn [idle advance].
  destruct (idle w) as [| c rest] eqn:Hi; [cbn; nothing_acquired |].
  cbn [wld conn sent execute].
  next_fate H1.
  - returned_with c rest [Queried c SELECT_history [JStr (req_boxId req)] false].
  - returned_with c rest [Queried c SELECT_history [JStr (req_boxId req)] true].
Qed.

Lemma schedule_returns_connection (req : request) (w : world) :
  connection_returned w (after GET_schedule req w).
Proof.
  unfold after, serve, handler, get_schedule. unfold_monad.
  destruct (fails (next_event w)) eqn:H0; [cbn; nothing_acquired |].
  cbn [idle advance].
  destruct (idle w) as [| c rest] eqn:Hi; [cbn; nothing_acquired |].
  cbn [wld conn sent execute].
  next_fate H1.
  - returned_with c rest [Queried c SELECT_schedule [JStr (req_boxId req)] false].
  - returned_with c rest [Queried c SELECT_schedule [JStr (req_boxId req)] true].
Qed.

Lemma medication_history_returns_connection (req : request) (w : world) :
  connection_returned w (after GET_medication_history req w).
Proof.
  unfold after, serve, handler, get_medication_history. unfold_monad.
  destruct (fails (next_event w)) eqn:H0; [cbn; nothing_acquired |].
  cbn [idle advance].
  destruct (idle w) as [| c rest] eqn:Hi; [cbn; nothing_acquired |].
  cbn [wld conn sent execute].
  next_fate H1.
  - returned_with c rest [Queried c SELECT_medication_history [JStr (req_boxId req)] false].
  - returned_with c rest [Queried c SELECT_medication_history [JStr (req_boxId req)] true].
Qed.

Lemma latest_returns_connection (req : request) (w : world) :
  connection_returned w (after GET_latest req w).
Proof.
  unfold after, serve, handler, get_latest. unfold_monad.
  destruct (fails (next_event w)) eqn:H0; [cbn; nothing_acquired |].
  cbn [idle advance].
  destruct (idle w) as [| c rest] eqn:Hi; [cbn; nothing_acquired |].
  cbn [wld conn sent execute].
  next_fate H1.
  - returned_with c rest [Queried c SELECT_latest_sensor [JStr (req_boxId req)] false].
  - next_fate H2.
    + returned_with c rest [Queried c SELECT_latest_sensor [JStr (req_boxId req)] true;
                            Queried c SELECT_latest_compartments [JStr (req_boxId req)] false].
    + returned_with c rest [Queried c SELECT_latest_sensor [JStr (req_boxId req)] true;
                            Queried c SELECT_latest_compartments [JStr (req_boxId req)] true].
Qed.

Lemma complete_returns_connection (req : request) (w : world) :
  connection_returned w (after POST_complete req w).
Proof.
  unfold after, serve, handler, post_complete. unfold_monad.
  destruct (destructure "scheduleId" "req.body" (req_body req) "scheduleId")
    as [scheduleId | e]; [| cbn; nothing_acquired].
  destruct (fails (next_event w)) eqn:H0; [cbn; nothing_acquired |].
  cbn [idle advance].
  destruct (idle w) as [| c rest] eqn:Hi; [cbn; nothing_acquired |].
  cbn [wld conn sent execute].
  next_fate H1.
  - returned_with c rest [Queried c UPDATE_schedule_taken [scheduleId] false].
  - returned_with c rest [Queried c UPDATE_schedule_taken [scheduleId] true].
Qed.

Lemma Forall_compartment_queries (c : connection) (boxId : jsval) (xs : list jsval) :
  Forall (on_connection c) (map (compartment_query c boxId) xs).
Proof.
  apply Forall_forall. intros e He. apply in_map_iff in He.
  destruct He as (x & <- & _). apply on_connection_Queried.
Qed.

Lemma loop_journal (c : connection) (boxId : jsval) (xs : list jsval)
      (w : world) (o : outcome unit) (w' : world) (k : nat) :
  loop_effect c boxId xs w o w' k ->
  exists qs, journal w' = journal w ++ qs /\ Forall (on_connection c) qs.
Proof.
  intro E. pose proof (le_outcome _ _ _ _ _ _ _ E) as Ho.
  destruct o as [[] | e].
  - destruct Ho as (_ & _ & _ & Hj). eexists. split; [exact Hj |].
    apply Forall_compartment_queries.
  - destruct Ho as (x & _ & [(_ & _ & _ & Hj) | (_ & _ & _ & _ & Hj)]).
    + eexists. split; [exact Hj |]. apply Forall_compartment_queries.
    + eexists. split; [exact Hj |]. apply Forall_app. split.
      * apply Forall_compartment_queries.
      * repeat constructor. apply on_connection_Queried.
Qed.

Lemma ingestion_returns_connection (req : request) (w : world) :
  connection_returned w (after POST_sensor_data req w).
Proof.
  destruct (ingest_cases req w) as [e He | msg Hb H0 | Hb H0 Hi | c rest msg Hb H0 Hi H1
                                   | c rest o w2 Hb H0 Hi H1 Hrun].
  - nothing_acquired.
  - nothing_acquired.
  - nothing_acquired.
  - returned_with c rest [Queried c INSERT_sensor_logs (reading_args (req_body req)) false].
  - destruct (loop_run_effect _ _ _ _ _ _ Hrun) as [k E].
    destruct (loop_journal _ _ _ _ _ _ _ E) as (qs & Hj & Hqs).
    destruct (ingest_loop_effect req w c rest _ _ k H0 H1 E)
      as (_ & _ & _ & _ & Hact & Hidle).
    split; [exact Hact |]. left.
    exists c, rest, (Queried c INSERT_sensor_logs (reading_args (req_body req)) true :: qs).
    split; [exact Hi | split; [exact Hidle | split]].
    + cbn [released record with_pool journal]. rewrite Hj. cbn.
      rewrite <- !app_assoc. reflexivity.
    + constructor; [apply on_connection_Queried | exact Hqs].
Qed.

(** C4. Whatever the request and whatever the store does, when a handler
    has run no connection stays borrowed that was not borrowed before: if
    the handler acquired a connection, every statement it ran was on that
    connection and its last act was to release it; if it acquired none, it
    released none. *)
Theorem every_handler_returns_its_connection (rt : route) (req : request) (w : world) :
  connection_returned w (after rt req w).
Proof.
  destruct rt.
  - apply ingestion_returns_connection.
  - apply latest_returns_connection.
  - apply history_returns_connection.
  - apply schedule_returns_connection.
  - apply complete_returns_connection.
  - apply medication_history_returns_connection.
Qed.

(** ** The compartment rows of the state handler *)

Lemma latest_compartments_relabel (g : compartment_row -> jsval) (boxId : string)
      (rows : list compartment_row) :
  limit 4 (order_by_desc cs_timestamp (box_reports boxId (map (relabel g) rows)))
  = map (relabel g) (limit 4 (order_by_desc cs_timestamp (box_reports boxId rows))).
Proof.
  unfold limit, order_by_desc, box_reports.
  rewrite filter_map_commute.
  rewrite (sort_by_map (relabel g) (desc cs_timestamp) (desc cs_timestamp)) by reflexivity.
  rewrite firstn_map. reflexivity.
Qed.

(** C10. The compartment rows of the state handler are the four most recent
    rows of the box whatever compartment they belong to: after compartment 2
    reported once and compartment 1 four times, all four rows are rows of
    compartment 1 and compartment 2 has none; and in general, giving the
    stored rows other compartment ids changes nothing in which rows are
    returned. *)
Theorem latest_compartments_are_not_per_compartment :
  (exists sensor rows,
      responses GET_latest (ask "box1") busy_compartment
        = [{| status := 200; json := Latest sensor (map CompartmentStatus rows) |}] /\
      List.length rows = 4%nat /\
      Forall (fun r => cs_compartment_id r = js_one) rows /\
      exists r, In r (compartment_status (db busy_compartment)) /\
                sql_eq (cs_box_id r) (JStr "box1") = true /\
                cs_compartment_id r = js_two) /\
  (forall (req : request) (w : world) (g : compartment_row -> jsval),
      calm w 3 -> idle w <> [] ->
      exists sensor rows,
        responses GET_latest req w
          = [{| status := 200; json := Latest sensor (map CompartmentStatus rows) |}] /\
        responses GET_latest req (relabelled g w)
          = [{| status := 200;
                json := Latest sensor (map CompartmentStatus (map (relabel g) rows)) |}]).
Proof.
  split.
  - exists (Some (SensorLog (reading_row (req_body (one_compartment "box1" js_one false)) 840))).
    exists [compartment_row_of (JStr "box1") (JObj [("id", js_one); ("isOpen", JBool false)]) 900;
            compartment_row_of (JStr "box1") (JObj [("id", js_one); ("isOpen", JBool true)]) 720;
            compartment_row_of (JStr "box1") (JObj [("id", js_one); ("isOpen", JBool false)]) 540;
            compartment_row_of (JStr "box1") (JObj [("id", js_one); ("isOpen", JBool true)]) 360].
    split; [vm_compute; reflexivity |].
    split; [reflexivity |]. split.
    + repeat constructor.
    + exists (compartment_row_of (JStr "box1") (JObj [("id", js_two); ("isOpen", JBool true)]) 180).
      split; [vm_compute; left; reflexivity |]. split; reflexivity.
  - intros req w g Hcalm Hidle.
    destruct (idle_cases w Hidle) as (c & rest & Hi).
    eexists. eexists. split.
    + unfold responses. rewrite (get_latest_calm req w c rest Hcalm Hi). cbn [fst].
      reflexivity.
    + unfold responses.
      rewrite (get_latest_calm req (relabelled g w) c rest Hcalm Hi). cbn [fst].
      cbn [relabelled with_db with_compartment_status db compartment_status sensor_logs].
      rewrite latest_compartments_relabel. reflexivity.
Qed.

(** ** Readings are never stamped ahead of the store clock *)

Lemma stamped_later (w w' : world) :
  sensor_logs (db w') = sensor_logs (db w) -> clock w <= clock w' ->
  stamped_in_the_past w -> stamped_in_the_past w'.
Proof.
  unfold stamped_in_the_past. intros -> Hc H.
  eapply Forall_impl; [| exact H]. simpl. intros r Hr. lia.
Qed.

Ltac kept := cbn; split; [reflexivity | lia].

Lemma readers_keep_the_readings (rt : route) (req : request) (w : world) :
  rt <> POST_sensor_data ->
  sensor_logs (db (after rt req w)) = sensor_logs (db w) /\
  clock w <= clock (after rt req w).
Proof.
  destruct rt; intro Hrt; [congruence | | | | |];
    unfold after, serve, handler, get_latest, get_history, get_schedule, post_complete,
      get_medication_history;
    unfold_monad;
    try (destruct (destructure "scheduleId" "req.body" (req_body req) "scheduleId")
           as [scheduleId | e]; [| kept]);
    (destruct (fails (next_event w)) eqn:H0; [kept |]);
    cbn [idle advance];
    (destruct (idle w) as [| c rest] eqn:Hi; [kept |]);
    cbn [wld conn sent execute];
    (next_fate H1; [kept |]);
    try (next_fate H2; [kept |]);
    kept.
Qed.

Lemma loop_clock (c : connection) (boxId : jsval) (xs : list jsval)
      (w : world) (o : outcome unit) (w' : world) (k : nat) :
  loop_effect c boxId xs w o w' k -> clock w <= clock w'.
Proof.
  intro E. pose proof (le_outcome _ _ _ _ _ _ _ E) as Ho.
  destruct o as [[] | e].
  - destruct Ho as (_ & _ & -> & _). apply clock_after_mono.
  - destruct Ho as (x & _ & [(_ & _ & -> & _) | (_ & _ & _ & -> & _)]);
      apply clock_after_mono.
Qed.

Lemma ingestion_stamps_in_the_past (req : request) (w : world) :
  stamped_in_the_past w -> stamped_in_the_past (after POST_sensor_data req w).
Proof.
  intro H.
  destruct (ingest_cases req w) as [e He | msg Hb H0 | Hb H0 Hi | c rest msg Hb H0 Hi H1
                                   | c rest o w2 Hb H0 Hi H1 Hrun].
  - exact H.
  - apply (stamped_later w); [reflexivity | cbn; lia | exact H].
  - apply (stamped_later w); [reflexivity | cbn; lia | exact H].
  - apply (stamped_later w); [reflexivity | cbn; lia | exact H].
  - destruct (loop_run_effect _ _ _ _ _ _ Hrun) as [k E].
    pose proof (loop_clock _ _ _ _ _ _ _ E) as Hclock.
    unfold stamped_in_the_past.
    cbn [released record with_pool db clock].
    rewrite (le_sensor_logs _ _ _ _ _ _ _ E).
    cbn [reading_inserted queried record with_db db with_sensor_logs sensor_logs] in *.
    apply Forall_app. split.
    + eapply Forall_impl; [| exact H]. simpl. intros r Hr. cbn in Hclock. lia.
    + repeat constructor. exact Hclock.
Qed.

(** No handler stamps a reading ahead of the clock. *)
Lemma handlers_stamp_in_the_past (rt : route) (req : request) (w : world) :
  stamped_in_the_past w -> stamped_in_the_past (after rt req w).
Proof.
  intro H.
  assert (Hdec : rt = POST_sensor_data \/ rt <> POST_sensor_data)
    by (destruct rt; (now left) || (right; discriminate)).
  destruct Hdec as [-> | Hrt].
  - now apply ingestion_stamps_in_the_past.
  - destruct (readers_keep_the_readings rt req w Hrt) as (Hlogs & Hclock).
    now apply (stamped_later w).
Qed.

(** ** The theorems at work *)

(** The report of the specification's scenario stores one reading and two
    compartment rows. *)
Lemma successful_ingestion_witness :
  let w := boot empty 0 every_minute in
  let w' := after POST_sensor_data two_compartments w in
  In (acknowledged "Data received successfully") (responses POST_sensor_data two_compartments w) /\
  exists reading rows,
    sensor_logs (db w') = [reading] /\
    compartment_status (db w') = rows /\
    List.length rows = 2%nat.
Proof.
  intros w w'.
  assert (Hr : In (acknowledged "Data received successfully")
                  (responses POST_sensor_data two_compartments w))
    by (vm_compute; left; reflexivity).
  split; [exact Hr |].
  destruct (successful_ingestion_stores_reading_and_every_report
              two_compartments w _ Hr eq_refl)
    as (reports & reading & rows & c & Harr & _ & Hlogs & _ & Hcs & Hlen & _).
  rewrite (Harr _ eq_refl) in Hlen.
  exists reading, rows. repeat split; assumption.
Defined.

(** A report with the isOpen values ["no"], [0] and none: the string is
    stored as 1, the two others as 0. *)
Lemma stored_is_open_witness :
  let w := boot empty 0 every_minute in
  let w' := after POST_sensor_data odd_flags w in
  In (acknowledged "Data received successfully") (responses POST_sensor_data odd_flags w) /\
  map cs_is_open (compartment_status (db w'))
    = [JNum (S754_finite false 4503599627370496 (-52));
       JNum (S754_zero false);
       JNum (S754_zero false)] /\
  exists rows,
    compartment_status (db w') = rows /\
    Forall2 (fun compartment stored =>
               integer_of (cs_is_open stored)
               = Some (if truthy (field compartment "isOpen") then 1 else 0))
            (reported (req_body odd_flags)) rows /\
    map (fun stored => integer_of (cs_is_open stored)) rows = [Some 1; Some 0; Some 0].
Proof.
  intros w w'.
  assert (Hr : In (acknowledged "Data received successfully")
                  (responses POST_sensor_data odd_flags w))
    by (vm_compute; left; reflexivity).
  split; [exact Hr | split; [reflexivity |]].
  destruct (stored_is_open_is_truthiness odd_flags w _ Hr eq_refl)
    as ((rows & Hcs & Hflags) & _).
  exists rows. split; [exact Hcs | split; [exact Hflags |]].
  change (compartment_status (db w) ++ rows) with rows in Hcs.
  rewrite <- Hcs. reflexivity.
Defined.

(** The store refuses the insert of the second compartment report: the
    reading and the first compartment row stay. *)
Lemma refused_insert_witness :
  let w := boot empty 0 (refuses 3) in
  let w' := after POST_sensor_data two_compartments w in
  responses POST_sensor_data two_compartments w
    = [{| status := 500; json := Failure "Lock wait timeout exceeded" |}] /\
  sensor_logs (db w') = [reading_row (req_body two_compartments) 120] /\
  compartment_status (db w')
    = [compartment_row_of (JStr "box1") (JObj [("id", js_one); ("isOpen", JBool true)]) 180].
Proof.
  intros w w'.
  destruct (refused_insert_aborts_and_keeps_earlier_rows two_compartments w 2
              "Lock wait timeout exceeded")
    as (c & q & _ & Hresp & Hlogs & Hcs & _).
  - reflexivity.
  - discriminate.
  - intros i Hi. destruct i as [| [| [| i]]]; [reflexivity | reflexivity | reflexivity | lia].
  - reflexivity.
  - cbn. lia.
  - repeat constructor.
  - split; [exact Hresp | split; [exact Hlogs | exact Hcs]].
Defined.


(** Entry 1 of the seeded table, untaken at first, completed twice: it is
    taken after the first call, at the time of that call, and taken after
    the second, at the time of the second; the three other entries stay as
    they were. *)
Lemma completion_twice_witness :
  let w := boot seeded 5000 every_minute in
  let w1 := after POST_complete (complete js_one) w in
  let w2 := after POST_complete (complete js_one) w1 in
  responses POST_complete (complete js_one) w
    = [acknowledged "Medication marked as taken"] /\
  responses POST_complete (complete js_one) w1
    = [acknowledged "Medication marked as taken"] /\
  medication_schedule (db w)
    = [entry js_two "box1" 7200 0 None;
       entry js_one "box1" 3600 0 None;
       entry (JStr "x") "box1" 1800 1 (Some 1900);
       entry (JStr "y") "box2" 900 0 None] /\
  medication_schedule (db w1)
    = [entry js_two "box1" 7200 0 None;
       entry js_one "box1" 3600 1 (Some 5120);
       entry (JStr "x") "box1" 1800 1 (Some 1900);
       entry (JStr "y") "box2" 900 0 None] /\
  medication_schedule (db w2)
    = [entry js_two "box1" 7200 0 None;
       entry js_one "box1" 3600 1 (Some 5240);
       entry (JStr "x") "box1" 1800 1 (Some 1900);
       entry (JStr "y") "box2" 900 0 None] /\
  Forall2 (completed js_one 5120) (medication_schedule (db w)) (medication_schedule (db w1)) /\
  Forall2 (completed js_one 5240) (medication_schedule (db w1)) (medication_schedule (db w2)).
Proof.
  intros w w1 w2.
  destruct (completion_is_idempotent (complete js_one) w)
    as (Hfirst & Hsecond & Hone & Htwo & _).
  - reflexivity.
  - intros i _. reflexivity.
  - discriminate.
  - split; [exact Hfirst | split; [exact Hsecond |]].
    split; [reflexivity | split; [reflexivity | split; [reflexivity |]]].
    split; [exact Hone | exact Htwo].
Defined.

(** Completing an entry that does not exist. *)
Lemma completion_of_nothing_witness :
  let w := boot seeded 5000 every_minute in
  (forall r, In r (medication_schedule (db w)) -> sql_eq (ms_id r) (JStr "nobody") = false) /\
  responses POST_complete (complete (JStr "nobody")) w
    = [acknowledged "Medication marked as taken"] /\
  db (after POST_complete (complete (JStr "nobody")) w) = db w.
Proof.
  intro w.
  assert (Hnone : forall r, In r (medication_schedule (db w)) ->
                            sql_eq (ms_id r) (JStr "nobody") = false).
  { intros r Hr. cbn in Hr.
    destruct Hr as [<- | [<- | [<- | [<- | []]]]]; reflexivity. }
  destruct (completion_succeeds_without_looking (complete (JStr "nobody")) w)
    as (Hresp & _ & Hdb & _).
  - reflexivity.
  - intros i _. reflexivity.
  - discriminate.
  - split; [exact Hnone | split; [exact Hresp | exact (Hdb Hnone)]].
Defined.




(** ** The scenario of the specification, run *)

(** Ingesting {boxId:"box1", temperature:22.5, humidity:40,
    compartmentStatus:[{id:1,isOpen:true},{id:2,isOpen:false}]} and asking
    for the state of "box1": the reading comes back, and the two compartment
    rows, newest first. *)
Example scenario_latest :
  responses GET_latest (ask "box1")
    (after POST_sensor_data two_compartments (boot empty 0 every_minute))
  = [{| status := 200;
        json := Latest
                  (Some (SensorLog {| sl_box_id := JStr "box1";
                                      sl_temperature := js_22_5;
                                      sl_humidity := js_40;
                                      sl_timestamp := 120 |}))
                  [CompartmentStatus {| cs_box_id := JStr "box1";
                                        cs_compartment_id := js_two;
                                        cs_is_open := js_zero;
                                        cs_timestamp := 240 |};
                   CompartmentStatus {| cs_box_id := JStr "box1";
                                        cs_compartment_id := js_one;
                                        cs_is_open := js_one;
                                        cs_timestamp := 180 |}] |}].
Proof. vm_compute. reflexivity. Qed.

(** A request without a body: the handler fails before it asks for a
    connection, and the pool is not touched. *)
Example scenario_no_body :
  serve POST_sensor_data {| req_body := JUndefined; req_boxId := "" |}
        (boot empty 0 every_minute)
  = ([{| status := 500;
         json := Failure "Cannot destructure property 'boxId' of 'req.body' as it is undefined." |}],
     boot empty 0 every_minute).
Proof. reflexivity. Qed.

(** A box nobody reported for: sensor is null and compartments is empty. *)
Example scenario_unknown_box :
  responses GET_latest (ask "box9")
    (after POST_sensor_data two_compartments (boot empty 0 every_minute))
  = [{| status := 200; json := Latest None [] |}].
Proof. vm_compute. reflexivity. Qed.

(** The journal of the scenario's ingestion: one connection, the three
    inserts in order, the release. *)
Example scenario_journal :
  journal (after POST_sensor_data two_compartments (boot empty 0 every_minute))
  = [Acquired 0%nat;
     Queried 0%nat INSERT_sensor_logs [JStr "box1"; js_22_5; js_40] true;
     Queried 0%nat INSERT_compartment_status [JStr "box1"; js_one; js_one] true;
     Queried 0%nat INSERT_compartment_status [JStr "box1"; js_two; js_zero] true;
     Released 0%nat].
Proof. reflexivity. Qed.

(** * More about the handlers *)

(** ** Every path of every handler *)

(** Walks through every path of a handler other than the ingestion: the
    body that cannot be read, the acquisition that fails, the empty pool,
    each query that fails, and the path on which nothing fails; [leaf]
    closes each of them. *)
Ltac walk leaf :=
  unfold after, responses, serve, handler, get_latest, get_history, get_schedule,
    post_complete, get_medication_history;
  unfold_monad;
  try (match goal with
       | |- context [destructure ?f ?src ?b "scheduleId"] =>
           destruct (destructure f src b "scheduleId") as [scheduleId | e] eqn:Hget
       end; [| leaf]);
  (next_fate ident:(H0); [leaf |]);
  cbn [idle advance];
  (match goal with
   | |- context [match idle ?w with _ => _ end] =>
       destruct (idle w) as [| c rest] eqn:Hi
   end; [leaf |]);
  cbn [wld conn sent execute];
  (next_fate ident:(H1); [leaf |]);
  try (next_fate ident:(H2); [leaf |]);
  leaf.

Ltac one_answer :=
  cbn; eexists; split; [reflexivity |];
  first [left; split; reflexivity | right; split; reflexivity].

(** X1. Whatever the request and whatever the store does, every handler
    sends exactly one response: status 200 with success true, or status 500
    with success false and an error message. *)
Theorem every_request_is_answered_once (rt : route) (req : request) (w : world) :
  answered_once (responses rt req w).
Proof.
  destruct rt.
  - destruct (ingest_cases req w) as [e He | msg Hb H0 | Hb H0 Hi | c rest msg Hb H0 Hi H1
                                     | c rest o w2 Hb H0 Hi H1 Hrun];
      try one_answer.
    destruct o as [[] | e]; one_answer.
  - walk one_answer.
  - walk one_answer.
  - walk one_answer.
  - walk one_answer.
  - walk one_answer.
Qed.

Ltac tables_kept := cbn; repeat split; reflexivity.

(** X2. The four GET handlers never change a table, whatever the request
    and whatever the store does. *)
Theorem get_handlers_leave_the_tables_alone (req : request) (w : world) :
  db (after GET_latest req w) = db w /\
  db (after GET_history req w) = db w /\
  db (after GET_schedule req w) = db w /\
  db (after GET_medication_history req w) = db w.
Proof.
  split; [| split; [| split]].
  - walk ltac:(cbn; reflexivity).
  - walk ltac:(cbn; reflexivity).
  - walk ltac:(cbn; reflexivity).
  - walk ltac:(cbn; reflexivity).
Qed.

(** X3. When no connection can be had (the store refuses the acquisition,
    or the pool has none idle), every handler answers 500 with the message
    of that error, runs no statement and releases nothing: the tables and
    the pool are as before. *)
Theorem failed_acquisition_is_reported_and_nothing_runs
        (rt : route) (req : request) (w : world) (e : error) :
  acquisition_error w = Some e ->
  (reads_body rt = true -> nullish (req_body req) = false) ->
  serve rt req w = ([{| status := 500; json := Failure (message e) |}], acquire_failed w).
Proof.
  unfold acquisition_error. intros Hacq Hbody.
  destruct rt; unfold serve, handler, post_sensor_data, post_complete, get_latest,
    get_history, get_schedule, get_medication_history;
    try rewrite !(destructure_field _ _ _ _ (Hbody eq_refl));
    unfold_monad;
    (destruct (fails (next_event w)) as [msg |] eqn:H0;
     [injection Hacq as <-; reflexivity |]);
    cbn [idle advance];
    (destruct (idle w) as [| c rest] eqn:Hi; [| discriminate]);
    injection Hacq as <-; reflexivity.
Qed.

(** X4. A POST whose req.body is undefined (no JSON body came with the
    request) is answered 500 with the TypeError of the destructuring, which
    names the first property the route asks for ([boxId] for the ingestion,
    [scheduleId] for the completion), before a connection is asked for: the
    world is left exactly as it was.  The same holds of a body that is null,
    with [null] in the message. *)
Theorem post_without_body_is_refused_before_the_pool (req : request) (w : world) :
  nullish (req_body req) = true ->
  let it_is := match req_body req with JNull => "null" | _ => "undefined" end in
  serve POST_sensor_data req w
    = ([{| status := 500;
           json := Failure ("Cannot destructure property 'boxId' of 'req.body' as it is "
                            ++ it_is ++ ".")%string |}], w) /\
  serve POST_complete req w
    = ([{| status := 500;
           json := Failure ("Cannot destructure property 'scheduleId' of 'req.body' as it is "
                            ++ it_is ++ ".")%string |}], w).
Proof.
  intro Hb. unfold serve, handler, post_sensor_data, post_complete. unfold_monad.
  destruct (req_body req); try discriminate; split; destruct w; reflexivity.
Qed.

(** ** What no handler does to the tables *)

Lemma kept_or_taken_same (rows : list schedule_row) : Forall2 kept_or_taken rows rows.
Proof.
  induction rows as [| r rows IH]; constructor; [| exact IH].
  unfold kept_or_taken. auto.
Qed.

Lemma kept_or_taken_update (hit : schedule_row -> bool) (t : Z) (rows : list schedule_row) :
  Forall2 kept_or_taken rows (map (fun r => if hit r then mark_taken t r else r) rows).
Proof.
  induction rows as [| r rows IH]; simpl; constructor; [| exact IH].
  unfold kept_or_taken. destruct (hit r); simpl; auto.
Qed.

Lemma tables_grow_same (d d' : database) :
  sensor_logs d' = sensor_logs d ->
  compartment_status d' = compartment_status d ->
  medication_schedule d' = medication_schedule d ->
  tables_grow d d'.
Proof.
  intros H1 H2 H3. unfold tables_grow. rewrite H1, H2, H3.
  split; [exists []; now rewrite app_nil_r |].
  split; [exists []; now rewrite app_nil_r |].
  apply kept_or_taken_same.
Qed.

Ltac grown :=
  cbn;
  first [ apply tables_grow_same; reflexivity
        | split; [exists []; now rewrite app_nil_r |];
          split; [exists []; now rewrite app_nil_r |];
          apply kept_or_taken_update ].

(** X5. No handler deletes or rewrites a stored row: after any request the
    two logs are the old logs with rows added at the end, and the schedule
    has the same entries in the same order, each untouched or taken. *)
Theorem no_handler_deletes_or_rewrites_history (rt : route) (req : request) (w : world) :
  tables_grow (db w) (db (after rt req w)).
Proof.
  destruct rt.
  - destruct (ingest_cases req w) as [e He | msg Hb H0 | Hb H0 Hi | c rest msg Hb H0 Hi H1
                                     | c rest o w2 Hb H0 Hi H1 Hrun];
      try (apply tables_grow_same; reflexivity).
    destruct (loop_run_effect _ _ _ _ _ _ Hrun) as [k E].
    unfold tables_grow. cbn [released record with_pool db].
    rewrite (le_sensor_logs _ _ _ _ _ _ _ E), (le_compartment_status _ _ _ _ _ _ _ E),
      (le_medication_schedule _ _ _ _ _ _ _ E).
    split; [eexists; reflexivity |]. split; [eexists; reflexivity |].
    apply kept_or_taken_same.
  - walk grown.
  - walk grown.
  - walk grown.
  - walk grown.
  - walk grown.
Qed.

(** ** The pool over many requests *)

Lemma route_returns_connection (rt : route) (req : request) (w : world) :
  connection_returned w (after rt req w).
Proof.
  destruct rt;
    [ apply ingestion_returns_connection | apply latest_returns_connection
    | apply history_returns_connection | apply schedule_returns_connection
    | apply complete_returns_connection | apply medication_history_returns_connection ].
Qed.

Lemma pool_whole_after (rt : route) (req : request) (w : world) :
  pool_whole w -> pool_whole (after rt req w).
Proof.
  intros (Hact & Hidle).
  destruct (route_returns_connection rt req w) as (Hact' & Hcase).
  split; [congruence |].
  destruct Hcase as [(c & rest & qs & Hi & Hi' & _) | [(Hi' & _) | (Hi' & _)]];
    try (rewrite Hi'; exact Hidle).
  rewrite Hi'. eapply perm_trans; [exact Hidle |]. rewrite Hi.
  apply Permutation_cons_append.
Qed.

(** X6. After any sequence of requests served one after the other since the
    server started, whatever the store did, no connection is borrowed and
    all [connectionLimit] connections of the pool are idle. *)
Theorem pool_is_whole_after_any_requests
        (reqs : list (route * request)) (d : database) (t : Z)
        (behaviour : nat -> store_event) :
  let w := serve_all reqs (boot d t behaviour) in
  active w = [] /\
  Permutation (seq 0 connectionLimit) (idle w) /\
  List.length (idle w) = connectionLimit.
Proof.
  cbv zeta.
  assert (H : forall w0, pool_whole w0 -> pool_whole (serve_all reqs w0)).
  { induction reqs as [| [rt req] reqs IH]; intros w0 Hw0; [exact Hw0 |].
    apply IH. apply pool_whole_after, Hw0. }
  destruct (H (boot d t behaviour)) as (Hact & Hidle).
  { split; [reflexivity | apply Permutation_refl]. }
  split; [exact Hact | split; [exact Hidle |]].
  transitivity (List.length (seq 0 connectionLimit)).
  - symmetry. exact (Permutation_length Hidle).
  - apply length_seq.
Qed.

(** ** A compartment report that cannot be read *)

(** The loop over reports of which the first that cannot be read is [x]:
    the reports before it are stored, the TypeError of reading [x.id] ends
    the loop, and no insert is attempted for [x] or any later report. *)
Lemma loop_run_unreadable (c : connection) (boxId : jsval) (pre : list jsval) :
  forall (x : jsval) (post : list jsval) (w : world) (o : outcome unit) (w' : world),
    Forall (fun y => nullish y = false) pre ->
    calm w (List.length pre) ->
    nullish x = true ->
    loop_run c boxId (pre ++ x :: post) w o w' ->
    (exists e, get x "id" = Thrown e /\ o = Thrown e) /\
    compartment_status (db w')
      = compartment_status (db w) ++ compartment_rows boxId w 0 pre /\
    sensor_logs (db w') = sensor_logs (db w) /\
    journal w' = journal w ++ map (compartment_query c boxId) pre /\
    idle w' = idle w /\ active w' = active w.
Proof.
  induction pre as [| y pre IH]; intros x post w o w' Hpre Hcalm Hx Hrun; simpl in Hrun.
  - inversion Hrun as [| x0 rest0 w0 e He | x0 rest0 w0 msg Hn Hf | x0 rest0 w0 o0 w0' Hn Hf Hr];
      subst; try congruence.
    repeat split; eauto; simpl; now rewrite app_nil_r.
  - inversion Hpre as [| y0 pre0 Hy Hpre']; subst.
    assert (H0 : fails (next_event w) = None) by (apply (Hcalm O); simpl; lia).
    inversion Hrun as [| x0 rest0 w0 e He | x0 rest0 w0 msg Hn Hf | x0 rest0 w0 o0 w0' Hn Hf Hr];
      subst.
    + apply get_Thrown in He. congruence.
    + congruence.
    + pose proof (follows_compartment_inserted c boxId y w) as Hfol.
      assert (Hcalm' : calm (compartment_inserted c boxId y w) (List.length pre)).
      { intros i Hi. destruct Hfol as (Hfate & Htick & _).
        rewrite Hfate, Htick, <- Nat.add_succ_comm. apply Hcalm. simpl. lia. }
      destruct (IH x post _ _ _ Hpre' Hcalm' Hx Hr) as (He & Hcs & Hlogs & Hj & Hi & Ha).
      split; [exact He |]. split; [| split; [| split; [| split]]].
      * rewrite Hcs. cbn. rewrite <- app_assoc. cbn.
        rewrite (compartment_rows_follows boxId w _ _ Hfol). reflexivity.
      * rewrite Hlogs. reflexivity.
      * rewrite Hj. cbn. rewrite <- app_assoc. reflexivity.
      * rewrite Hi. reflexivity.
      * rewrite Ha. reflexivity.
Qed.

(** X7. When element [x] of the compartmentStatus array is null (or
    undefined) and the store answers: the handler stores the reading and the
    reports before [x], then fails on reading [x.id]; it answers 500 with
    the TypeError's message, which names what [x] is and the property [id],
    attempts no insert for [x] or any later report, keeps the rows stored so
    far, and releases the connection. *)
Theorem unreadable_report_aborts_and_keeps_earlier_rows
        (req : request) (w : world) (pre : list jsval) (x : jsval) (post : list jsval) :
  let body := req_body req in
  let boxId := field body "boxId" in
  let w' := after POST_sensor_data req w in
  nullish body = false ->
  field body "compartmentStatus" = JArr (pre ++ x :: post) ->
  Forall (fun y => nullish y = false) pre ->
  nullish x = true ->
  idle w <> [] ->
  calm w (2 + List.length pre) ->
  exists c,
    responses POST_sensor_data req w
      = [{| status := 500;
            json := Failure match x with
                            | JNull => "Cannot read properties of null (reading 'id')"
                            | _ => "Cannot read properties of undefined (reading 'id')"
                            end |}] /\
    sensor_logs (db w') = sensor_logs (db w) ++ [reading_row body (clock_after w 2)] /\
    compartment_status (db w')
      = compartment_status (db w) ++ compartment_rows boxId w 2 pre /\
    journal w'
      = journal w
        ++ Acquired c
           :: Queried c INSERT_sensor_logs (reading_args body) true
           :: map (compartment_query c boxId) pre
        ++ [Released c] /\
    active w' = active w.
Proof.
  intros body boxId w'. subst body boxId.
  intros Hb Harr Hpre Hx Hidle Hcalm.
  pose proof (ingest_cases req w) as Hcases. fold w' in Hcases.
  assert (H0 : fails (next_event w) = None) by (apply (Hcalm O); lia).
  destruct Hcases as [e He | m Hb' H0' | Hb' H0' Hi | c rest m Hb' H0' Hi H1
                     | c rest o w2 Hb' H0' Hi H1 Hrun].
  - apply destructure_Thrown in He. congruence.
  - congruence.
  - congruence.
  - assert (fails (next_event (acquired c rest w)) = None) by (apply (Hcalm 1%nat); lia).
    congruence.
  - rewrite (reported_array _ _ Harr) in Hrun.
    assert (Hcalm' : calm (reading_inserted c (req_body req) (acquired c rest w))
                          (List.length pre)).
    { intros i Hi'. rewrite fate_of_loop_start. apply Hcalm. lia. }
    destruct (loop_run_unreadable c _ pre x post _ _ _ Hpre Hcalm' Hx Hrun)
      as ((e & He & ->) & Hcs & Hlogs & Hj & Hidle' & Hact).
    exists c. split; [| split; [| split; [| split]]].
    + destruct x; try discriminate; cbn in He; injection He as <-; reflexivity.
    + cbn [released record with_pool db]. rewrite Hlogs. reflexivity.
    + cbn [released record with_pool db]. rewrite Hcs.
      rewrite (compartment_rows_follows _ _ _ _
                 (follows_queried c INSERT_sensor_logs (reading_args (req_body req)) true
                    (with_sensor_logs (db (acquired c rest w))
                       (sensor_logs (db (acquired c rest w))
                          ++ [reading_row (req_body req) (clock (advance (acquired c rest w)))]))
                    (acquired c rest w))).
      rewrite (compartment_rows_follows _ _ _ _ (follows_acquired c rest w)).
      reflexivity.
    + cbn [released record with_pool journal]. rewrite Hj. cbn.
      rewrite <- !app_assoc. reflexivity.
    + cbn [released record with_pool active]. rewrite Hact. cbn. now rewrite Nat.eqb_refl.
Qed.

(** ** The schedule history handler *)


(** ** A completion seen by the schedule handlers *)

Lemma untaken_after_completion (boxId : string) (scheduleId : jsval) (t : Z)
      (table : list schedule_row) (r : schedule_row) :
  In r (untaken boxId (taken_now scheduleId t table)) <->
  In r (untaken boxId table) /\ sql_eq (ms_id r) scheduleId = false.
Proof.
  unfold untaken, taken_now. rewrite !filter_In, in_map_iff. split.
  - intros ((r0 & Hr & Hr0) & Hkeep). apply andb_true_iff in Hkeep.
    destruct (sql_eq (ms_id r0) scheduleId) eqn:E.
    + subst r. simpl in Hkeep. destruct Hkeep as (_ & Hzero). discriminate.
    + subst r. rewrite E. repeat split; try assumption. now apply andb_true_iff.
  - intros ((Hr & Hkeep) & Hmiss). split; [| exact Hkeep].
    exists r. rewrite Hmiss. split; [reflexivity | exact Hr].
Qed.

(** X9. After an entry is completed (with a store that answers), the
    schedule handler returns what it returned before without the rows of
    that id, and the schedule history handler still returns those rows, now
    with is_taken = 1 and the time of the completion. *)
Theorem completed_entry_leaves_the_outstanding_list
        (done asking : request) (w : world) :
  nullish (req_body done) = false -> calm w 4 -> idle w <> [] ->
  let scheduleId := field (req_body done) "scheduleId" in
  let w1 := after POST_complete done w in
  exists before outstanding history,
    responses GET_schedule asking w
      = [{| status := 200; json := Data (Rows (map MedicationSchedule before)) |}] /\
    responses GET_schedule asking w1
      = [{| status := 200; json := Data (Rows (map MedicationSchedule outstanding)) |}] /\
    (forall r, In r outstanding <-> In r before /\ sql_eq (ms_id r) scheduleId = false) /\
    responses GET_medication_history asking w1
      = [{| status := 200; json := Data (Rows (map MedicationSchedule history)) |}] /\
    (forall r, In r history -> sql_eq (ms_id r) scheduleId = true ->
               ms_is_taken r = 1 /\ ms_taken_time r = Some (clock w1)) /\
    (forall r, In r before -> sql_eq (ms_id r) scheduleId = true ->
               In (mark_taken (clock w1) r) history).
Proof.
  intros Hb Hcalm Hidle scheduleId w1.
  destruct (idle_cases w Hidle) as (c & rest & Hi).
  pose proof (calm_weaken w 4 2 ltac:(lia) Hcalm) as Hcalm2.
  pose proof (post_complete_calm done w c rest Hb Hcalm2 Hi) as H1. cbv zeta in H1.
  assert (Hw1 : w1 = snd (serve POST_complete done w)) by reflexivity.
  rewrite H1 in Hw1. cbn [snd] in Hw1.
  assert (Hcalm1 : calm w1 2).
  { apply (calm_after_two w w1 2); [now rewrite Hw1 | now rewrite Hw1 | exact Hcalm]. }
  assert (Hidle1 : exists c1 rest1, idle w1 = c1 :: rest1).
  { rewrite Hw1. cbn. destruct rest; simpl; eauto. }
  destruct Hidle1 as (c1 & rest1 & Hi1).
  assert (Hclock : clock w1 = clock_after w 2) by (rewrite Hw1; reflexivity).
  assert (Htable : medication_schedule (db w1)
                   = taken_now scheduleId (clock w1) (medication_schedule (db w))).
  { rewrite Hclock, Hw1. reflexivity. }
  exists (order_by_asc ms_scheduled_time
            (untaken (req_boxId asking) (medication_schedule (db w)))),
    (order_by_asc ms_scheduled_time
       (untaken (req_boxId asking) (medication_schedule (db w1)))),
    (order_by_desc ms_scheduled_time
       (box_schedule (req_boxId asking) (medication_schedule (db w1)))).
  split; [| split; [| split; [| split; [| split]]]].
  - unfold responses. rewrite (get_schedule_calm asking w c rest Hcalm2 Hi). reflexivity.
  - unfold responses. rewrite (get_schedule_calm asking w1 c1 rest1 Hcalm1 Hi1). reflexivity.
  - intro r. unfold order_by_asc. rewrite !sort_by_In, Htable.
    apply untaken_after_completion.
  - unfold responses. rewrite (get_medication_history_calm asking w1 c1 rest1 Hcalm1 Hi1).
    reflexivity.
  - intros r Hr Hhit. unfold order_by_desc in Hr. rewrite sort_by_In in Hr.
    unfold box_schedule in Hr. apply filter_In in Hr. destruct Hr as (Hr & _).
    rewrite Htable in Hr. exact (taken_now_marks _ _ _ _ Hr Hhit).
  - intros r Hr Hhit. unfold order_by_asc in Hr. rewrite sort_by_In in Hr.
    unfold untaken in Hr. apply filter_In in Hr. destruct Hr as (Hr & Hkeep).
    apply andb_true_iff in Hkeep. destruct Hkeep as (Hbox & _).
    unfold order_by_desc. rewrite sort_by_In. unfold box_schedule.
    apply filter_In. split; [| exact Hbox].
    rewrite Htable. unfold taken_now. apply in_map_iff.
    exists r. rewrite Hhit. split; [reflexivity | exact Hr].
Qed.

(** ** An ingestion seen by the query handlers *)

Lemma idle_after (rt : route) (req : request) (w : world) :
  idle w <> [] -> idle (after rt req w) <> [].
Proof.
  intro Hidle.
  destruct (route_returns_connection rt req w) as (_ & Hcase).
  destruct Hcase as [(c & rest & qs & _ & Hi' & _) | [(Hi' & _) | (Hi' & _)]];
    rewrite Hi'; [| exact Hidle | exact Hidle].
  destruct rest; discriminate.
Qed.

(** X10. A reading that was ingested with success is returned by the
    history handler of its box as long as the query runs less than 24 hours
    after the insert, and not any more from 24 hours on. *)
Theorem ingested_reading_is_in_the_history_for_a_day
        (device asking : request) (w0 : world) (ok : response) :
  In ok (responses POST_sensor_data device w0) -> success ok = true ->
  field (req_body device) "boxId" = JStr (req_boxId asking) ->
  let w := after POST_sensor_data device w0 in
  let stamp := clock_after w0 2 in
  let now := clock (after GET_history asking w) in
  calm w 2 ->
  exists rows,
    responses GET_history asking w
      = [{| status := 200; json := Data (Rows (map SensorLog rows)) |}] /\
    (now - 24 * 3600 < stamp -> In (reading_row (req_body device) stamp) rows) /\
    (stamp <= now - 24 * 3600 -> ~ In (reading_row (req_body device) stamp) rows).
Proof.
  intros Hok Hs Hbox w stamp now Hcalm. subst stamp.
  destruct (ingest_success device w0 ok Hok Hs)
    as (c0 & rest0 & _ & Hi0 & _ & _ & _ & Hlogs & _).
  assert (Hidle : idle w <> []).
  { apply idle_after. rewrite Hi0. discriminate. }
  destruct (idle_cases w Hidle) as (c & rest & Hi).
  assert (Hnow : now = clock_after w 2) by (apply (clock_after_history asking w c rest Hcalm Hi)).
  exists (order_by_desc sl_timestamp (history_hits (req_boxId asking) now (sensor_logs (db w)))).
  split; [| split].
  - unfold responses. rewrite (get_history_calm asking w c rest Hcalm Hi), Hnow. reflexivity.
  - intro Hfresh. unfold order_by_desc. rewrite sort_by_In. unfold history_hits.
    apply filter_In. split.
    + fold w in Hlogs. rewrite Hlogs. apply in_or_app. right. now left.
    + cbn [reading_row sl_box_id sl_timestamp]. rewrite Hbox. cbn.
      rewrite String.eqb_refl. cbn. apply Z.ltb_lt. unfold day.
      cbn in Hfresh. lia.
  - intros Hstale Hin. unfold order_by_desc in Hin. rewrite sort_by_In in Hin.
    unfold history_hits in Hin. apply filter_In in Hin. destruct Hin as (_ & Hkeep).
    apply andb_true_iff in Hkeep. destruct Hkeep as (_ & Hlt).
    apply Z.ltb_lt in Hlt. cbn [reading_row sl_timestamp] in Hlt. unfold day in Hlt. lia.
Qed.

Lemma clock_after_le (w : world) (n m : nat) :
  (n <= m)%nat -> clock_after w n <= clock_after w m.
Proof. induction 1; [lia | simpl; lia]. Qed.

Lemma compartment_rows_stamps (boxId : jsval) (w : world) (xs : list jsval) :
  forall done r, In r (compartment_rows boxId w done xs) ->
                 cs_box_id r = boxId /\ clock_after w (S done) <= cs_timestamp r.
Proof.
  induction xs as [| x rest IH]; intros done r Hr; simpl in Hr; [contradiction |].
  destruct Hr as [<- | Hr].
  - split; [reflexivity | apply Z.le_refl].
  - destruct (IH (S done) r Hr) as (Hb & Ht). split; [exact Hb |].
    pose proof (clock_after_le w (S done) (S (S done)) ltac:(lia)). lia.
Qed.

Lemma filter_length_perm {A : Type} (p : A -> bool) (l l' : list A) :
  Permutation l l' -> List.length (filter p l) = List.length (filter p l').
Proof.
  induction 1 as [| x l l' _ IH | x y l | l l' l'' _ IH1 _ IH2]; simpl.
  - reflexivity.
  - destruct (p x); simpl; now rewrite IH.
  - destruct (p x), (p y); reflexivity.
  - now rewrite IH1.
Qed.

Lemma filter_all {A : Type} (p : A -> bool) (l : list A) :
  (forall x, In x l -> p x = true) -> filter p l = l.
Proof.
  induction l as [| a l IH]; intro H; simpl; [reflexivity |].
  rewrite (H a (or_introl eq_refl)). f_equal. apply IH. intros x Hx. apply H. now right.
Qed.

Lemma filter_none {A : Type} (p : A -> bool) (l : list A) :
  (forall x, In x l -> p x = false) -> filter p l = [].
Proof.
  induction l as [| a l IH]; intro H; simpl; [reflexivity |].
  rewrite (H a (or_introl eq_refl)). apply IH. intros x Hx. apply H. now right.
Qed.

Lemma filter_one {A : Type} (p : A -> bool) (l : list A) (x : A) :
  In x l -> p x = true -> (1 <= List.length (filter p l))%nat.
Proof.
  intros Hx Hp. assert (H : In x (filter p l)) by (apply filter_In; auto).
  destruct (filter p l); [contradiction | simpl; lia].
Qed.

(** Rows that are newer than everything else and no more than [n] are all
    among the [n] most recent. *)
Lemma newest_rows_are_selected {A : Type} (key : A -> Z) (n : nat)
      (old new out : list A) (bound : Z) :
  most_recent key n (old ++ new) out ->
  (forall r, In r old -> key r <= bound) ->
  (forall r, In r new -> bound < key r) ->
  (List.length new <= n)%nat ->
  forall r, In r new -> In r out.
Proof.
  intros (_ & Hlen & rest & Hperm & Hrest) Hold Hnew Hn r Hr.
  assert (Hin : In r (out ++ rest)).
  { apply (Permutation_in _ Hperm). apply in_or_app. now right. }
  apply in_app_or in Hin. destruct Hin as [Hin | Hin]; [exact Hin | exfalso].
  set (p := fun x => bound <? key x).
  pose proof (filter_length_perm p _ _ Hperm) as Hcount.
  rewrite !filter_app, !length_app in Hcount.
  rewrite (filter_none p old) in Hcount
    by (intros x Hx; apply Z.ltb_ge; now apply Hold).
  rewrite (filter_all p out) in Hcount.
  2: { intros x Hx. apply Z.ltb_lt. specialize (Hrest x r Hx Hin).
       specialize (Hnew r Hr). lia. }
  pose proof (filter_one p rest r Hin ltac:(apply Z.ltb_lt; now apply Hnew)) as Hone.
  pose proof (filter_length_le p new) as Hle.
  pose proof (Permutation_length Hperm) as Hall.
  rewrite !length_app in Hall.
  assert (Hrest1 : (1 <= List.length rest)%nat).
  { destruct rest; [contradiction | simpl; lia]. }
  rewrite length_app in Hlen. simpl in Hcount. lia.
Qed.

Lemma box_reports_app (boxId : string) (l1 l2 : list compartment_row) :
  box_reports boxId (l1 ++ l2) = box_reports boxId l1 ++ box_reports boxId l2.
Proof. apply filter_app. Qed.

(** X11. After a device report with at most four compartments was ingested
    with success, at a store time later than every stored row, the state
    handler returns for that box the reading of the report and all of its
    compartment rows. *)
Theorem ingested_report_comes_back_as_the_latest_state
        (device asking : request) (w0 : world) (ok : response) :
  In ok (responses POST_sensor_data device w0) -> success ok = true ->
  field (req_body device) "boxId" = JStr (req_boxId asking) ->
  (List.length (reported (req_body device)) <= 4)%nat ->
  stamped_in_the_past w0 -> reports_in_the_past w0 ->
  clock w0 < clock_after w0 2 ->
  let w := after POST_sensor_data device w0 in
  calm w 3 ->
  exists compartments,
    responses GET_latest asking w
      = [{| status := 200;
            json := Latest (Some (SensorLog (reading_row (req_body device) (clock_after w0 2))))
                           (map CompartmentStatus compartments) |}] /\
    forall r, In r (compartment_rows (JStr (req_boxId asking)) w0 2 (reported (req_body device))) ->
              In r compartments.
Proof.
  intros Hok Hs Hbox Hfew Hpast Hpast' Hlater w Hcalm.
  destruct (ingest_success device w0 ok Hok Hs)
    as (c0 & rest0 & _ & Hi0 & _ & _ & _ & _ & Hcs & _).
  assert (Hidle : idle w <> []).
  { apply idle_after. rewrite Hi0. discriminate. }
  destruct (latest_rows asking w Hcalm Hidle)
    as (sensor & compartments & Hresp & _ & _ & Huniq & _ & Hfour).
  destruct (ingested_reading_is_newest device w0 ok (req_boxId asking) Hok Hs Hbox Hpast Hlater)
    as (Hin & Hnewest).
  rewrite (Huniq _ Hin Hnewest) in Hresp.
  exists compartments. split; [exact Hresp |].
  fold w in Hcs. rewrite Hbox in Hcs.
  set (new := compartment_rows (JStr (req_boxId asking)) w0 2 (reported (req_body device))) in *.
  assert (Hnew : box_reports (req_boxId asking) new = new).
  { apply filter_all. intros r Hr.
    destruct (compartment_rows_stamps _ _ _ _ _ Hr) as (-> & _).
    cbn. apply String.eqb_refl. }
  rewrite Hcs, box_reports_app, Hnew in Hfour.
  apply (newest_rows_are_selected cs_timestamp 4 _ new compartments (clock w0) Hfour).
  - intros r Hr. unfold box_reports in Hr. apply filter_In in Hr. destruct Hr as (Hr & _).
    unfold reports_in_the_past in Hpast'. rewrite Forall_forall in Hpast'. now apply Hpast'.
  - intros r Hr. destruct (compartment_rows_stamps _ _ _ _ _ Hr) as (_ & Ht).
    pose proof (clock_after_le w0 2 3 ltac:(lia)). lia.
  - unfold new. now rewrite compartment_rows_length.
Qed.

(** ** One box does not see the reports of another *)

(** X12. An ingestion whose boxId is not the one asked for, whatever its
    outcome, changes neither the readings nor the compartment rows of the
    box asked for, and so not what the state handler returns for it. *)
Theorem ingestion_for_another_box_is_not_seen
        (device asking : request) (w0 : world) :
  sql_eq (field (req_body device) "boxId") (JStr (req_boxId asking)) = false ->
  let w := after POST_sensor_data device w0 in
  box_readings (req_boxId asking) (sensor_logs (db w))
    = box_readings (req_boxId asking) (sensor_logs (db w0)) /\
  box_reports (req_boxId asking) (compartment_status (db w))
    = box_reports (req_boxId asking) (compartment_status (db w0)) /\
  (calm w0 3 -> calm w 3 -> idle w0 <> [] ->
   responses GET_latest asking w = responses GET_latest asking w0).
Proof.
  intros Hother w.
  assert (Htables :
    box_readings (req_boxId asking) (sensor_logs (db w))
      = box_readings (req_boxId asking) (sensor_logs (db w0)) /\
    box_reports (req_boxId asking) (compartment_status (db w))
      = box_reports (req_boxId asking) (compartment_status (db w0))).
  { pose proof (ingest_cases device w0) as Hcases. fold w in Hcases.
    destruct Hcases as [e He | msg Hb H0 | Hb H0 Hi | c rest msg Hb H0 Hi H1
                       | c rest o w2 Hb H0 Hi H1 Hrun];
      try (split; reflexivity).
    destruct (loop_run_effect _ _ _ _ _ _ Hrun) as [k E].
    cbn [released record with_pool db].
    rewrite (le_sensor_logs _ _ _ _ _ _ _ E), (le_compartment_status _ _ _ _ _ _ _ E).
    cbn [reading_inserted queried record with_db db with_sensor_logs sensor_logs
           compartment_status advance acquired with_pool].
    rewrite box_readings_app, box_reports_app. split.
    - unfold box_readings at 2. cbn [filter reading_row sl_box_id].
      rewrite Hother. apply app_nil_r.
    - unfold box_reports at 2. rewrite filter_none; [apply app_nil_r |].
      intros r Hr. destruct (compartment_rows_stamps _ _ _ _ _ Hr) as (-> & _).
      exact Hother. }
  destruct Htables as (Hreadings & Hreports).
  split; [exact Hreadings | split; [exact Hreports |]].
  intros Hcalm0 Hcalm Hidle0.
  assert (Hidle : idle w <> []) by (apply idle_after, Hidle0).
  destruct (idle_cases w0 Hidle0) as (c0 & rest0 & Hi0).
  destruct (idle_cases w Hidle) as (c & rest & Hi).
  unfold responses.
  rewrite (get_latest_calm asking w c rest Hcalm Hi),
    (get_latest_calm asking w0 c0 rest0 Hcalm0 Hi0).
  cbn [fst]. rewrite Hreadings, Hreports. reflexivity.
Qed.

(** ** The logs are in time order *)

Lemma StronglySorted_app {A : Type} (R : A -> A -> Prop) (l1 l2 : list A) :
  StronglySorted R l1 -> StronglySorted R l2 ->
  (forall x y, In x l1 -> In y l2 -> R x y) ->
  StronglySorted R (l1 ++ l2).
Proof.
  induction 1 as [| a l1 Hl1 IH Ha]; intros H2 Hcross; simpl; [exact H2 |].
  constructor.
  - apply IH; [exact H2 |]. intros x y Hx Hy. apply Hcross; [now right | exact Hy].
  - apply Forall_app. split; [exact Ha |].
    apply Forall_forall. intros y Hy. apply Hcross; [now left | exact Hy].
Qed.

Lemma compartment_rows_sorted (boxId : jsval) (w : world) (xs : list jsval) :
  forall done, oldest_first cs_timestamp (compartment_rows boxId w done xs).
Proof.
  induction xs as [| x rest IH]; intro done; simpl; constructor.
  - apply IH.
  - apply Forall_forall. intros r Hr.
    destruct (compartment_rows_stamps _ _ _ _ _ Hr) as (_ & Ht).
    change (clock_after w (S done) <= cs_timestamp r).
    pose proof (clock_after_le w (S done) (S (S done)) ltac:(lia)). lia.
Qed.

Lemma compartment_rows_before (boxId : jsval) (w : world) (xs : list jsval) :
  forall done r, In r (compartment_rows boxId w done xs) ->
                 cs_timestamp r <= clock_after w (done + List.length xs).
Proof.
  induction xs as [| x rest IH]; intros done r Hr; simpl in Hr; [contradiction |].
  destruct Hr as [<- | Hr].
  - change (clock_after w (S done) <= clock_after w (done + List.length (x :: rest))).
    apply clock_after_le. simpl. lia.
  - specialize (IH (S done) r Hr). simpl in *.
    replace (done + S (List.length rest))%nat with (S (done + List.length rest)) by lia.
    exact IH.
Qed.

Lemma others_keep_the_logs (rt : route) (req : request) (w : world) :
  rt <> POST_sensor_data ->
  sensor_logs (db (after rt req w)) = sensor_logs (db w) /\
  compartment_status (db (after rt req w)) = compartment_status (db w) /\
  clock w <= clock (after rt req w).
Proof.
  destruct rt; intro Hrt; [congruence | | | | |];
    walk ltac:(cbn; repeat split; try reflexivity; lia).
Qed.

Lemma chronological_after (rt : route) (req : request) (w : world) :
  chronological w -> chronological (after rt req w).
Proof.
  intros (Hpast & Hpast' & Hlogs & Hreports).
  assert (Hdec : rt = POST_sensor_data \/ rt <> POST_sensor_data)
    by (destruct rt; (now left) || (right; discriminate)).
  destruct Hdec as [-> | Hrt].
  2: { destruct (others_keep_the_logs rt req w Hrt) as (Hl & Hc & Hclock).
       unfold chronological, stamped_in_the_past, reports_in_the_past in *.
       rewrite Hl, Hc. repeat split; try assumption.
       - eapply Forall_impl; [| exact Hpast]. simpl. intros r Hr. lia.
       - eapply Forall_impl; [| exact Hpast']. simpl. intros r Hr. lia. }
  split; [now apply ingestion_stamps_in_the_past |].
  unfold stamped_in_the_past, reports_in_the_past in *.
  rewrite Forall_forall in Hpast, Hpast'.
  destruct (ingest_cases req w) as [e He | msg Hb H0 | Hb H0 Hi | c rest msg Hb H0 Hi H1
                                   | c rest o w2 Hb H0 Hi H1 Hrun].
  - repeat split; try assumption. now apply Forall_forall.
  - repeat split; try assumption. apply Forall_forall. intros r Hr.
    specialize (Hpast' r Hr). cbn. lia.
  - repeat split; try assumption. apply Forall_forall. intros r Hr.
    specialize (Hpast' r Hr). cbn. lia.
  - repeat split; try assumption. apply Forall_forall. intros r Hr.
    specialize (Hpast' r Hr). cbn. lia.
  - destruct (loop_run_effect _ _ _ _ _ _ Hrun) as [k E].
    pose proof (le_bound _ _ _ _ _ _ _ E) as Hk.
    set (w1 := reading_inserted c (req_body req) (acquired c rest w)) in *.
    assert (Hw1 : clock w <= clock w1) by (cbn; lia).
    assert (Hw2 : clock_after w1 k <= clock w2).
    { pose proof (le_outcome _ _ _ _ _ _ _ E) as Ho. destruct o as [[] | e].
      - destruct Ho as (_ & _ & -> & _). lia.
      - destruct Ho as (x & _ & [(_ & _ & -> & _) | (_ & _ & _ & -> & _)]);
          [lia | apply clock_after_le; lia]. }
    cbn [released record with_pool db clock].
    rewrite (le_sensor_logs _ _ _ _ _ _ _ E), (le_compartment_status _ _ _ _ _ _ _ E).
    split; [| split].
    + apply Forall_app. split.
      * apply Forall_forall. intros r Hr. specialize (Hpast' r Hr).
        pose proof (clock_after_mono w1 k). cbn [w1 reading_inserted queried record with_db db
          compartment_status with_sensor_logs] in Hr. lia.
      * apply Forall_forall. intros r Hr.
        pose proof (compartment_rows_before _ _ _ _ _ Hr) as Hb'.
        rewrite length_firstn in Hb'. simpl in Hb'.
        pose proof (clock_after_le w1 (Nat.min k (List.length (reported (req_body req)))) k
                      ltac:(lia)). lia.
    + cbn [w1 reading_inserted queried record with_db db with_sensor_logs sensor_logs].
      apply StronglySorted_app; [exact Hlogs | repeat constructor |].
      intros x y Hx [<- | []]. specialize (Hpast x Hx).
      cbn [reading_row sl_timestamp advance acquired record with_pool clock]. lia.
    + cbn [w1 reading_inserted queried record with_db db with_sensor_logs compartment_status].
      apply StronglySorted_app; [exact Hreports | apply compartment_rows_sorted |].
      intros x y Hx Hy. specialize (Hpast' x Hx).
      destruct (compartment_rows_stamps _ _ _ _ _ Hy) as (_ & Ht).
      pose proof (clock_after_mono w1 1). fold w1 in Ht. lia.
Qed.

(** X13. After any sequence of requests served since the server started on
    empty tables, both logs list their rows in the order of their
    timestamps and no row is stamped later than the store clock shows. *)
Theorem logs_stay_in_time_order
        (reqs : list (route * request)) (t : Z) (behaviour : nat -> store_event) :
  chronological (serve_all reqs (boot empty t behaviour)).
Proof.
  assert (H : forall w0, chronological w0 -> chronological (serve_all reqs w0)).
  { induction reqs as [| [rt req] reqs IH]; intros w0 Hw0; [exact Hw0 |].
    apply IH. apply chronological_after, Hw0. }
  apply H. repeat split; constructor.
Qed.

(** ** These theorems at work *)

(** The store refuses the very first operation. *)
Lemma failed_acquisition_witness :
  serve GET_history (ask "box1") (boot empty 0 (refuses 0))
  = ([{| status := 500; json := Failure "Lock wait timeout exceeded" |}],
     acquire_failed (boot empty 0 (refuses 0))).
Proof.
  apply (failed_acquisition_is_reported_and_nothing_runs
           GET_history (ask "box1") (boot empty 0 (refuses 0))
           (Error "Lock wait timeout exceeded")).
  - reflexivity.
  - discriminate.
Defined.

(** A POST that carried no JSON body. *)
Lemma post_without_body_witness :
  serve POST_sensor_data {| req_body := JUndefined; req_boxId := "" |}
        (boot seeded 0 every_minute)
    = ([{| status := 500;
           json := Failure "Cannot destructure property 'boxId' of 'req.body' as it is undefined." |}],
       boot seeded 0 every_minute) /\
  serve POST_complete {| req_body := JUndefined; req_boxId := "" |}
        (boot seeded 0 every_minute)
    = ([{| status := 500;
           json := Failure "Cannot destructure property 'scheduleId' of 'req.body' as it is undefined." |}],
       boot seeded 0 every_minute).
Proof.
  apply (post_without_body_is_refused_before_the_pool
           {| req_body := JUndefined; req_boxId := "" |} (boot seeded 0 every_minute)).
  reflexivity.
Defined.

(** The report whose second compartment entry is null: the reading and the
    first compartment row are stored, nothing else. *)
Lemma unreadable_report_witness :
  let w := boot empty 0 every_minute in
  let w' := after POST_sensor_data broken_report w in
  responses POST_sensor_data broken_report w
    = [{| status := 500; json := Failure "Cannot read properties of null (reading 'id')" |}] /\
  sensor_logs (db w') = [reading_row (req_body broken_report) 120] /\
  compartment_status (db w')
    = [compartment_row_of (JStr "box1") (JObj [("id", js_one); ("isOpen", JBool true)]) 180].
Proof.
  intros w w'.
  destruct (unreadable_report_aborts_and_keeps_earlier_rows broken_report w
              [JObj [("id", js_one); ("isOpen", JBool true)]] JNull
              [JObj [("id", js_two); ("isOpen", JBool false)]])
    as (c & Hresp & Hlogs & Hcs & _).
  - reflexivity.
  - reflexivity.
  - repeat constructor.
  - reflexivity.
  - discriminate.
  - intros i _. reflexivity.
  - split; [exact Hresp | split; [exact Hlogs | exact Hcs]].
Defined.


(** Entry 1 of the seeded table is completed at store time 5120. *)
Lemma completed_entry_witness :
  let w1 := after POST_complete (complete js_one) (boot seeded 5000 every_minute) in
  exists outstanding history,
    responses GET_schedule (ask "box1") w1
      = [{| status := 200; json := Data (Rows (map MedicationSchedule outstanding)) |}] /\
    ~ In (entry js_one "box1" 3600 0 None) outstanding /\
    In (entry js_two "box1" 7200 0 None) outstanding /\
    responses GET_medication_history (ask "box1") w1
      = [{| status := 200; json := Data (Rows (map MedicationSchedule history)) |}] /\
    In (entry js_one "box1" 3600 1 (Some 5120)) history.
Proof.
  intro w1.
  destruct (completed_entry_leaves_the_outstanding_list
              (complete js_one) (ask "box1") (boot seeded 5000 every_minute))
    as (before & outstanding & history & Hbefore & Hafter & Hiff & Hhist & _ & Hkept).
  - reflexivity.
  - intros i _. reflexivity.
  - discriminate.
  - assert (Hb : before = [entry js_one "box1" 3600 0 None; entry js_two "box1" 7200 0 None]).
    { vm_compute in Hbefore. injection Hbefore as Hb.
      destruct before as [| a [| b [| ? ?]]]; try discriminate.
      injection Hb as <- <-. reflexivity. }
    exists outstanding, history.
    split; [exact Hafter | split; [| split; [| split; [exact Hhist |]]]].
    + intro Hin. apply Hiff in Hin. destruct Hin as (_ & Hmiss). discriminate.
    + apply Hiff. rewrite Hb. split; [right; left; reflexivity | reflexivity].
    + apply (Hkept (entry js_one "box1" 3600 0 None));
        [rewrite Hb; left; reflexivity | reflexivity].
Defined.

(** The scenario's report, then the history of box1 asked two minutes
    later. *)
Lemma ingested_reading_in_history_witness :
  let w := after POST_sensor_data two_compartments (boot empty 0 every_minute) in
  exists rows,
    responses GET_history (ask "box1") w
      = [{| status := 200; json := Data (Rows (map SensorLog rows)) |}] /\
    In (reading_row (req_body two_compartments) 120) rows.
Proof.
  intro w.
  destruct (ingested_reading_is_in_the_history_for_a_day
              two_compartments (ask "box1") (boot empty 0 every_minute)
              (acknowledged "Data received successfully"))
    as (rows & Hresp & Hfresh & _).
  - vm_compute. left. reflexivity.
  - reflexivity.
  - reflexivity.
  - intros i _. reflexivity.
  - exists rows. split; [exact Hresp |]. apply Hfresh. vm_compute. reflexivity.
Defined.

(** The scenario's report, then the state of box1. *)
Lemma ingested_report_witness :
  let w := after POST_sensor_data two_compartments (boot empty 0 every_minute) in
  exists compartments,
    responses GET_latest (ask "box1") w
      = [{| status := 200;
            json := Latest (Some (SensorLog (reading_row (req_body two_compartments) 120)))
                           (map CompartmentStatus compartments) |}] /\
    In (compartment_row_of (JStr "box1") (JObj [("id", js_one); ("isOpen", JBool true)]) 180)
       compartments /\
    In (compartment_row_of (JStr "box1") (JObj [("id", js_two); ("isOpen", JBool false)]) 240)
       compartments.
Proof.
  intro w.
  destruct (ingested_report_comes_back_as_the_latest_state
              two_compartments (ask "box1") (boot empty 0 every_minute)
              (acknowledged "Data received successfully"))
    as (compartments & Hresp & Hin).
  - vm_compute. left. reflexivity.
  - reflexivity.
  - reflexivity.
  - cbn. lia.
  - constructor.
  - constructor.
  - vm_compute. reflexivity.
  - intros i _. reflexivity.
  - exists compartments. split; [exact Hresp |].
    split; apply Hin; cbn; tauto.
Defined.

(** A report of box2 after the five reports of box1. *)
Lemma another_box_witness :
  let w := after POST_sensor_data (one_compartment "box2" js_one true) busy_compartment in
  sql_eq (JStr "box2") (JStr "box1") = false /\
  responses GET_latest (ask "box1") w = responses GET_latest (ask "box1") busy_compartment.
Proof.
  intro w. split; [reflexivity |].
  destruct (ingestion_for_another_box_is_not_seen
              (one_compartment "box2" js_one true) (ask "box1") busy_compartment)
    as (_ & _ & Hsame).
  - reflexivity.
  - apply Hsame.
    + intros i _. reflexivity.
    + intros i _. reflexivity.
    + discriminate.
Defined.
